(** * Troop server: a shallow embedding of [src/server.py]

    The server relays the edits of a collaborative live-coding session.
    This development embeds the session registry, the id allocator, the
    acknowledgement barrier, the peer-annotation layer, the broadcast
    policy and the per-connection handler of [server.py], and states the
    properties of the specification over that embedding.

    Python objects are mutated in place and exceptions unwind the stack
    while keeping every mutation made so far.  Both are modelled by a small
    state-and-exception monad over the record [TroopServer]. *)

From Stdlib Require Import ZArith List Bool Ascii String Lia Arith.
From Stdlib Require Import DecimalString DecimalPos DecimalN.
Import ListNotations.

Local Open Scope Z_scope.

(** ** Python values used by the server *)

(** A document is a Python [str], a sequence of code points. *)
Definition text := list ascii.

(** A network endpoint, the tuple [(host, port)] that [socketserver] hands
    to the request handler as [client_address]. *)
Definition addr := (string * Z)%type.

Definition addr_eqb (a b : addr) : bool :=
  String.eqb (fst a) (fst b) && (snd a =? snd b).

(** A socket, the [request] object of a handler. *)
Definition sock := nat.

(** One element of [TextOperation.ops]: a Python [int] (positive to retain,
    negative to delete) or a Python [str] (to insert). *)
Inductive op_val : Type :=
| OpInt (n : Z)
| OpStr (s : text).

(** [range(a, b)] and [range(b)]. *)
Definition py_range (a b : Z) : list Z :=
  map (fun i => a + Z.of_nat i) (seq 0 (Z.to_nat (b - a))).

(** ** Messages *)

(** Modelled from the spec: the kinds of message and their fields, which
    [message.py] (not part of the sources at hand) defines. *)
Inductive msg_body : Type :=
| CONNECT (name hostname : string) (port : Z)
| CONNECT_ACK
| REQUEST_ACK
| OPERATION (revision : Z) (operation : list op_val)
| SET_ALL (document : text) (ranges : list (Z * Z)) (locs : list (Z * Z))
| RESET (document : text) (ranges : list (Z * Z)) (locs : list (Z * Z))
| REMOVE (client_id : Z)
| RESPONSE (str : string)
| KILL (str : string)
| PASSWORD (password : string)
| OTHER (type : Z) (payload : string).

(** Modelled from the spec: the fields every message carries; [src_id] is
    always there and the [reply] flag may be absent. *)
Record message : Type := Message {
  src_id : Z;
  reply : option Z;
  body : msg_body
}.

(** Modelled from the spec: [MSG_CONNECT(src_id, name, hostname, port)] of
    [message.py]. *)
Definition MSG_CONNECT (src : Z) (name hostname : string) (port : Z) : message :=
  Message src None (CONNECT name hostname port).

(** Modelled from the spec: [MSG_REQUEST_ACK(src_id)] of [message.py]. *)
Definition MSG_REQUEST_ACK (src : Z) : message := Message src None REQUEST_ACK.

(** Modelled from the spec: [MSG_RESET(src_id, document, ranges, locs)] of
    [message.py]. *)
Definition MSG_RESET (src : Z) (d : text) (r l : list (Z * Z)) : message :=
  Message src None (RESET d r l).

(** Modelled from the spec: [MSG_REMOVE(client_id)] of [message.py], which
    the server calls with the removed id alone. *)
Definition MSG_REMOVE (client_id : Z) : message :=
  Message client_id None (REMOVE client_id).

(** [isinstance(msg, MSG_CONNECT)] and its siblings. *)
Definition is_MSG_CONNECT (m : message) : bool :=
  match body m with CONNECT _ _ _ => true | _ => false end.

Definition is_MSG_CONNECT_ACK (m : message) : bool :=
  match body m with CONNECT_ACK => true | _ => false end.

Definition is_MSG_OPERATION (m : message) : bool :=
  match body m with OPERATION _ _ => true | _ => false end.

(** What a socket is handed: the raw authentication reply, or a framed
    message. *)
Inductive packet : Type :=
| Raw (bytes : string)
| Framed (m : message).

(** ** Clients and the registry *)

Record Client : Type := mkClient {
  address : addr;
  source : sock;
  id : Z;
  name : string;
  index : Z
}.

Definition hostname (c : Client) : string := fst (address c).
Definition port (c : Client) : Z := snd (address c).

(** [Client.__init__(address, id_num, request_handle, name)]. *)
Definition new_Client (a : addr) (id_num : Z) (request_handle : sock)
  (nm : string) : Client :=
  mkClient a request_handle id_num nm 0.

Definition set_index (i : Z) (c : Client) : Client :=
  mkClient (address c) (source c) (id c) (name c) i.

(** [Client.__eq__]: a client equals an address when its address does. *)
Definition client_eq (c : Client) (other : addr) : bool :=
  addr_eqb (address c) other.

(** [self.clients] is a Python [dict] from id to [Client].  Its iteration
    order is the order of insertion, so it is kept as an association list
    with at most one entry per key. *)
Module Dict.
Definition t := list (Z * Client).

Definition contains (k : Z) (d : t) : bool :=
  existsb (fun kv => fst kv =? k) d.

Definition get (k : Z) (d : t) : option Client :=
  option_map snd (find (fun kv => fst kv =? k) d).

Fixpoint set (k : Z) (v : Client) (d : t) : t :=
  match d with
  | [] => [(k, v)]
  | (k', v') :: r => if k' =? k then (k, v) :: r else (k', v') :: set k v r
  end.

Definition del (k : Z) (d : t) : t :=
  filter (fun kv => negb (fst kv =? k)) d.

Definition keys (d : t) : list Z := map fst d.
Definition values (d : t) : list Client := map snd d.
End Dict.

(** ** Server state

    The fields of [TroopServer] that the modelled methods read or write,
    the [document] and revision log ([backend]) it inherits from the OT
    server, and [wire], which records every packet a socket accepted, in
    order. *)
Record TroopServer : Type := mkServer {
  document : text;
  backend : list (list op_val);
  peer_tag_doc : text;
  waiting_for_ack : bool;
  acknowledged_clients : list Z;
  clients : Dict.t;
  max_id : Z;
  last_id : Z;
  password : string;
  running : bool;
  msg_queue : list message;
  wire : list (sock * packet)
}.

Definition with_document (v : text) (s : TroopServer) :=
  mkServer v (backend s) (peer_tag_doc s) (waiting_for_ack s)
    (acknowledged_clients s) (clients s) (max_id s) (last_id s) (password s)
    (running s) (msg_queue s) (wire s).
Definition with_backend (v : list (list op_val)) (s : TroopServer) :=
  mkServer (document s) v (peer_tag_doc s) (waiting_for_ack s)
    (acknowledged_clients s) (clients s) (max_id s) (last_id s) (password s)
    (running s) (msg_queue s) (wire s).
Definition with_peer_tag_doc (v : text) (s : TroopServer) :=
  mkServer (document s) (backend s) v (waiting_for_ack s)
    (acknowledged_clients s) (clients s) (max_id s) (last_id s) (password s)
    (running s) (msg_queue s) (wire s).
Definition with_waiting_for_ack (v : bool) (s : TroopServer) :=
  mkServer (document s) (backend s) (peer_tag_doc s) v
    (acknowledged_clients s) (clients s) (max_id s) (last_id s) (password s)
    (running s) (msg_queue s) (wire s).
Definition with_acknowledged_clients (v : list Z) (s : TroopServer) :=
  mkServer (document s) (backend s) (peer_tag_doc s) (waiting_for_ack s)
    v (clients s) (max_id s) (last_id s) (password s)
    (running s) (msg_queue s) (wire s).
Definition with_clients (v : Dict.t) (s : TroopServer) :=
  mkServer (document s) (backend s) (peer_tag_doc s) (waiting_for_ack s)
    (acknowledged_clients s) v (max_id s) (last_id s) (password s)
    (running s) (msg_queue s) (wire s).
Definition with_last_id (v : Z) (s : TroopServer) :=
  mkServer (document s) (backend s) (peer_tag_doc s) (waiting_for_ack s)
    (acknowledged_clients s) (clients s) (max_id s) v (password s)
    (running s) (msg_queue s) (wire s).
Definition with_msg_queue (v : list message) (s : TroopServer) :=
  mkServer (document s) (backend s) (peer_tag_doc s) (waiting_for_ack s)
    (acknowledged_clients s) (clients s) (max_id s) (last_id s) (password s)
    (running s) v (wire s).
Definition with_wire (v : list (sock * packet)) (s : TroopServer) :=
  mkServer (document s) (backend s) (peer_tag_doc s) (waiting_for_ack s)
    (acknowledged_clients s) (clients s) (max_id s) (last_id s) (password s)
    (running s) (msg_queue s) v.

(** ** The state-and-exception monad *)

Inductive exn : Type :=
| DeadClientError (host : string)
| SocketError
| KeyError
| IndexError
| ValueError
| AssertionError
| OTError
| RevisionOutOfRange.

Inductive result (A : Type) : Type :=
| Ok (a : A)
| Raise (e : exn).
Arguments Ok {A} a.
Arguments Raise {A} e.

Definition M (A : Type) : Type := TroopServer -> result A * TroopServer.

Definition ret {A} (a : A) : M A := fun s => (Ok a, s).
Definition raise {A} (e : exn) : M A := fun s => (Raise e, s).
Definition bind {A B} (m : M A) (k : A -> M B) : M B :=
  fun s => match m s with
           | (Ok a, s') => k a s'
           | (Raise e, s') => (Raise e, s')
           end.
Definition get_state : M TroopServer := fun s => (Ok s, s).
Definition modify (f : TroopServer -> TroopServer) : M unit :=
  fun s => (Ok tt, f s).

(** [try: m except DeadClientError: h]. *)
Definition try_dead {A} (m : M A) (h : string -> M A) : M A :=
  fun s => match m s with
           | (Raise (DeadClientError host), s') => h host s'
           | r => r
           end.

Declare Scope py_scope.
Delimit Scope py_scope with py.
Notation "x <- c1 ;; c2" := (bind c1 (fun x => c2))
  (at level 61, c1 at next level, right associativity) : py_scope.
Notation "c1 ;; c2" := (bind c1 (fun _ => c2))
  (at level 61, right associativity) : py_scope.
Local Open Scope py_scope.

(** [for x in xs: body x], stopping at the first exception. *)
Fixpoint for_each {A} (xs : list A) (body : A -> M unit) : M unit :=
  match xs with
  | [] => ret tt
  | x :: r => body x ;; for_each r body
  end.

(** ** Id allocation: [TroopServer.get_next_id] *)

(** The body of the overflow loop: [if n not in self.clients: self.last_id = n]. *)
Definition scan_step (s : TroopServer) (n : Z) : TroopServer :=
  if negb (Dict.contains n (clients s)) then with_last_id n s else s.

(** [TroopServer.get_next_id].  The list to scan is built before the loop
    starts.  The loop has no [break], so the [else] clause of the [for]
    runs after every scan and the method returns [-2] from there; the final
    [return self.last_id] is reached from the increment branch only. *)
Definition get_next_id : M Z :=
  fun s =>
    if last_id s <? max_id s then
      let s' := with_last_id (last_id s + 1) s in
      (Ok (last_id s'), s')
    else
      let scan := py_range (last_id s) (max_id s) ++ py_range 0 (last_id s) in
      (Ok (-2), fold_left scan_step scan s).

(** ** The acknowledgement barrier *)

(** [TroopServer.wait_for_ack]. *)
Definition wait_for_ack : M unit :=
  modify (fun s => with_acknowledged_clients [] (with_waiting_for_ack true s)).

(** [client_id in self.acknowledged_clients]. *)
Definition acked (l : list Z) (client_id : Z) : bool :=
  existsb (Z.eqb client_id) l.

(** [TroopServer.connect_ack].  The list [acknowledged_clients] is created
    by [wait_for_ack], the only method that raises the flag under which
    the handler calls [connect_ack]. *)
Definition connect_ack (msg : message) : M unit :=
  fun s =>
    let client_id := src_id msg in
    let s1 := with_acknowledged_clients (acknowledged_clients s ++ [client_id]) s in
    if forallb (acked (acknowledged_clients s1)) (Dict.keys (clients s1)) then
      (Ok tt, with_acknowledged_clients [] (with_waiting_for_ack false s1))
    else (Ok tt, s1).

(** [TroopServer.clear_history]: a fresh, empty [MemoryBackend]. *)
Definition clear_history : M unit := modify (with_backend []).

(** ** Formatting the authentication reply *)

Definition zeros (n : nat) : string := string_of_list_ascii (repeat "0"%char n).

(** ["{:04d}".format(n)]: the sign, then zeros up to a total width of 4,
    then the decimal digits of the magnitude; wider numbers are not cut. *)
Definition format_04d (n : Z) : string :=
  let digits := NilZero.string_of_uint (N.to_uint (Z.abs_N n)) in
  let sign := if n <? 0 then "-"%string else ""%string in
  (sign ++ zeros (4 - String.length sign - String.length digits) ++ digits)%string.

(** ** Text operations *)

(** Modelled from the spec: the base length of an operation of
    [ot/text_operation.py] (not part of the sources at hand), the sum of its
    retain and delete counts.  An integer [n >= 0] retains [n] code points,
    an integer [n < 0] deletes [-n], a string is inserted. *)
Definition base_length (ops : list op_val) : Z :=
  fold_right (fun v acc => match v with
                           | OpInt n => Z.abs n + acc
                           | OpStr _ => acc
                           end) 0 ops.

(** Modelled from the spec: the target length, the sum of the retain counts
    and of the lengths of the inserted strings. *)
Definition target_length (ops : list op_val) : Z :=
  fold_right (fun v acc => match v with
                           | OpInt n => (if 0 <=? n then n else 0) + acc
                           | OpStr s => Z.of_nat (List.length s) + acc
                           end) 0 ops.

(** Modelled from the spec: applying an operation to a document
    ([TextOperation.__call__]); it fails unless the base length of the
    operation is the length of the document. *)
Fixpoint apply_ops (ops : list op_val) (doc : text) : option text :=
  match ops with
  | [] => match doc with [] => Some [] | _ :: _ => None end
  | OpStr s :: r => option_map (app s) (apply_ops r doc)
  | OpInt n :: r =>
      let k := Z.abs_nat n in
      if (k <=? List.length doc)%nat then
        if 0 <=? n then option_map (app (firstn k doc)) (apply_ops r (skipn k doc))
        else apply_ops r (skipn k doc)
      else None
  end.

Section Server.

(** *** The environment of the server

    [link_up sk] tells whether [sendall] on socket [sk] succeeds.  The
    helpers of [utils.py] and the pairwise transform of the OT package
    are not part of the sources at hand and are taken as parameters;
    [get_peer_char] and [get_peer_id_from_char] answer [None] where the
    lookup in the peer alphabet raises. *)
Variable link_up : sock -> bool.
Variable get_peer_char : Z -> option ascii.
Variable get_peer_id_from_char : ascii -> option Z.
Variable get_operation_index : list op_val -> Z.
Variable transform :
  list op_val -> list op_val -> option (list op_val * list op_val).

(** *** Sending *)

Definition sendall (sk : sock) (p : packet) : M unit :=
  fun s => if link_up sk then (Ok tt, with_wire (wire s ++ [(sk, p)]) s)
           else (Raise SocketError, s).

(** [Client.send]: any failure of the socket becomes [DeadClientError]. *)
Definition send (c : Client) (msg : message) : M unit :=
  fun s => match sendall (source c) (Framed msg) s with
           | (Raise _, s') => (Raise (DeadClientError (hostname c)), s')
           | r => r
           end.

(** *** Eviction and broadcast *)

(** [TroopServer.remove_client]. *)
Definition remove_client (client_id : Z) : M unit :=
  modify (fun s => if Dict.contains client_id (clients s)
                   then with_clients (Dict.del client_id (clients s)) s
                   else s) ;;
  s <- get_state ;;
  for_each (Dict.values (clients s))
    (fun client => send client (MSG_REMOVE client_id)).

(** The guard of [respond]:
    [(client.id != msg['src_id']) or ('reply' not in msg.data) or (msg['reply'] == 1)]. *)
Definition should_send (client : Client) (msg : message) : bool :=
  negb (id client =? src_id msg)
  || match reply msg with None => true | Some _ => false end
  || match reply msg with Some r => r =? 1 | None => false end.

(** [TroopServer.respond].  The handler of [DeadClientError] runs outside
    the [try] block, so an exception raised by [remove_client] leaves
    [respond]. *)
Definition respond (msg : message) : M unit :=
  s <- get_state ;;
  for_each (Dict.values (clients s))
    (fun client =>
       try_dead (if should_send client msg then send client msg else ret tt)
                (fun err => remove_client (id client))).

(** *** The peer-annotation document *)

(** The loop of [get_client_ranges] over [peer_tag_doc[1:]], with its
    three local variables. *)
Fixpoint ranges_loop (rest : text) (data : list (Z * Z)) (p_char : ascii)
  (count : Z) : result (list (Z * Z)) :=
  match rest with
  | [] =>
      if 0 <? count then
        match get_peer_id_from_char p_char with
        | Some pid => Ok (data ++ [(pid, count)])
        | None => Raise ValueError
        end
      else Ok data
  | char :: r =>
      if negb (Ascii.eqb char p_char) then
        match get_peer_id_from_char p_char with
        | Some pid => ranges_loop r (data ++ [(pid, count)]) char 1
        | None => Raise ValueError
        end
      else ranges_loop r data p_char (count + 1)
  end.

Definition client_ranges (doc : text) : result (list (Z * Z)) :=
  match doc with
  | [] => Ok []
  | p_char :: rest => ranges_loop rest [] p_char 1
  end.

(** [TroopServer.get_client_ranges]. *)
Definition get_client_ranges : M (list (Z * Z)) :=
  fun s => (client_ranges (peer_tag_doc s), s).

(** [TroopServer.get_client_locs]. *)
Definition get_client_locs : M (list (Z * Z)) :=
  fun s => (Ok (map (fun c => (id c, index c)) (Dict.values (clients s))), s).

(** [TroopServer.get_contents]. *)
Definition get_contents : M (text * list (Z * Z) * list (Z * Z)) :=
  s <- get_state ;;
  ranges <- get_client_ranges ;;
  locs <- get_client_locs ;;
  ret (document s, ranges, locs).

(** *** The transform engine *)

(** Modelled from the spec: rebasing an operation over the operations
    logged since it was authored, by the pairwise transform of
    [ot/text_operation.py] (not part of the sources at hand). *)
Fixpoint rebase (op : list op_val) (concurrent : list (list op_val))
  : option (list op_val) :=
  match concurrent with
  | [] => Some op
  | c :: r => match transform op c with
              | Some (op', _) => rebase op' r
              | None => None
              end
  end.

(** Modelled from the spec: [receive_operation] of [ot/server.py] (not part
    of the sources at hand).  The revision must lie between 0 and the
    current one; the operation is rebased, checked against the document,
    applied and appended to the log. *)
Definition receive_operation (user_id revision : Z) (op : list op_val)
  : M (list op_val) :=
  fun s =>
    if (0 <=? revision) && (revision <=? Z.of_nat (List.length (backend s))) then
      match rebase op (skipn (Z.to_nat revision) (backend s)) with
      | None => (Raise OTError, s)
      | Some op' =>
          match apply_ops op' (document s) with
          | None => (Raise OTError, s)
          | Some d =>
              (Ok op', with_backend (backend s ++ [op']) (with_document d s))
          end
      end
    else (Raise RevisionOutOfRange, s).

(** The comprehension of [handle_operation]:
    [get_peer_char(src) * len(val) if isinstance(val, str) else val]. *)
Fixpoint peer_ops (src : Z) (ops : list op_val) : result (list op_val) :=
  match ops with
  | [] => Ok []
  | OpInt n :: r =>
      match peer_ops src r with
      | Ok r' => Ok (OpInt n :: r')
      | Raise e => Raise e
      end
  | OpStr s :: r =>
      match get_peer_char src with
      | Some c =>
          match peer_ops src r with
          | Ok r' => Ok (OpStr (repeat c (List.length s)) :: r')
          | Raise e => Raise e
          end
      | None => Raise IndexError
      end
  end.

Definition lift {A} (r : result A) : M A := fun s => (r, s).

(** [TroopServer.handle_operation]. *)
Definition handle_operation (msg : message) : M message :=
  match body msg with
  | OPERATION revision operation =>
      op <- receive_operation (src_id msg) revision operation ;;
      let msg := Message (src_id msg) (reply msg) (OPERATION revision op) in
      peer_op <- lift (peer_ops (src_id msg) op) ;;
      s <- get_state ;;
      match apply_ops peer_op (peer_tag_doc s) with
      | None => raise OTError
      | Some tags =>
          modify (with_peer_tag_doc tags) ;;
          match Dict.get (src_id msg) (clients s) with
          | None => raise KeyError
          | Some client =>
              modify (fun s => with_clients
                        (Dict.set (src_id msg)
                           (set_index (get_operation_index op) client)
                           (clients s)) s) ;;
              ret msg
          end
      end
  | _ => raise KeyError
  end.

(** One round of [TroopServer.update_send] on a non-empty queue. *)
Definition update_send_step : M unit :=
  s <- get_state ;;
  match msg_queue s with
  | [] => ret tt
  | msg :: q =>
      modify (with_msg_queue q) ;;
      msg <- (if is_MSG_OPERATION msg then handle_operation msg else ret msg) ;;
      respond msg
  end.

(** *** The request handler

    The attributes of [TroopRequestHandler] that the modelled methods
    use; [client_id] is assigned by [authenticate]. *)
Record TroopRequestHandler : Type := mkHandler {
  client_address : addr;
  request : sock;
  client_id : Z
}.

Definition with_client_id (v : Z) (h : TroopRequestHandler) :=
  mkHandler (client_address h) (request h) v.

(** [TroopRequestHandler.authenticate]; [password s] stands for
    [self.master.password.hexdigest()]. *)
Definition authenticate (h : TroopRequestHandler) (pw : string)
  : M TroopRequestHandler :=
  s <- get_state ;;
  cid <- (if String.eqb pw (password s) then get_next_id else ret (-1)) ;;
  let h := with_client_id cid h in
  let reply := format_04d (client_id h) in
  sendall (request h) (Raw reply) ;;
  ret h.

(** [TroopRequestHandler.not_authenticated], on the packet that
    [get_message] decoded. *)
Definition not_authenticated (h : TroopRequestHandler) (pkt : list message)
  : M (TroopRequestHandler * bool) :=
  match pkt with
  | [] => raise IndexError
  | m :: _ =>
      match body m with
      | PASSWORD pw =>
          h <- authenticate h pw ;;
          ret (h, client_id h <? 0)
      | _ => raise KeyError
      end
  end.

(** [TroopRequestHandler.connect_clients]. *)
Definition connect_clients (h : TroopRequestHandler) (new_client : Client)
  : M unit :=
  modify (fun s => with_clients
            (Dict.set (id new_client) new_client (clients s)) s) ;;
  let msg1 := MSG_CONNECT (id new_client) (name new_client)
                (hostname new_client) (port new_client) in
  s <- get_state ;;
  for_each (Dict.values (clients s))
    (fun client =>
       send client msg1 ;;
       (if negb (client_eq client (client_address h)) then
          send new_client (MSG_CONNECT (id client) (name client)
                             (hostname client) (port client))
        else ret tt) ;;
       send client (MSG_REQUEST_ACK (-1))).

(** [self.client_address not in list(self.master.clients.values())]. *)
Definition address_registered (a : addr) (s : TroopServer) : bool :=
  existsb (fun c => client_eq c a) (Dict.values (clients s)).

(** [TroopRequestHandler.handle_connect]; [None] is Python's [None]. *)
Definition handle_connect (h : TroopRequestHandler) (msg : message)
  : M (option Client) :=
  match body msg with
  | CONNECT nm _ _ =>
      s <- get_state ;;
      if negb (address_registered (client_address h) s) then
        wait_for_ack ;;
        let new_client :=
          new_Client (client_address h) (client_id h) (request h) nm in
        connect_clients h new_client ;;
        ret (Some new_client)
      else ret None
  | _ => raise AssertionError
  end.

(** [TroopRequestHandler.update_all_clients]. *)
Definition update_all_clients : M unit :=
  contents <- get_contents ;;
  let '(doc, ranges, locs) := contents in
  let msg := MSG_RESET (-1) doc ranges locs in
  s <- get_state ;;
  for_each (Dict.values (clients s)) (fun client => send client msg).

(** [TroopRequestHandler.handle_client_lost]. *)
Definition handle_client_lost (h : TroopRequestHandler) : M unit :=
  remove_client (client_id h).

(** The body of [for msg in packet] in [handle]. *)
Definition handle_msg (h : TroopRequestHandler) (msg : message) : M unit :=
  if is_MSG_CONNECT msg then
    handle_connect h msg ;;
    update_all_clients ;;
    clear_history
  else
    s <- get_state ;;
    if waiting_for_ack s then
      if is_MSG_CONNECT_ACK msg then connect_ack msg else ret tt
    else
      modify (fun s => with_msg_queue (msg_queue s ++ [msg]) s).

Definition handle_packet (h : TroopRequestHandler) (pkt : list message)
  : M unit :=
  for_each pkt (handle_msg h).

(** What one call of [get_message] in the loop of [handle] comes to: a
    decoded packet, Python's [None], or an exception. *)
Inductive read : Type :=
| Received (pkt : list message)
| ReceivedNone
| ReadFailed.

(** [try: m except Exception as e: h].  Every exception of the model is
    taken to derive from [Exception]; [DeadClientError] is defined outside
    the sources at hand. *)
Definition try_except {A} (m : M A) (h : exn -> M A) : M A :=
  fun s => match m s with
           | (Raise e, s') => h e s'
           | r => r
           end.

(** The [while] loop of [handle] over the reads of the socket that
    follow authentication.  The test [packet is None] and its call of
    [handle_client_lost] sit inside the [try], so an exception raised by
    that call is caught by [except Exception], which calls
    [handle_client_lost] again; an exception of the read itself goes
    straight to the [except] clause.  Both paths end the loop. *)
Fixpoint handle_loop (h : TroopRequestHandler) (reads : list read) : M unit :=
  match reads with
  | [] => ret tt
  | rd :: rest =>
      s <- get_state ;;
      if running s then
        match rd with
        | ReceivedNone =>
            try_except (handle_client_lost h) (fun e => handle_client_lost h)
        | ReadFailed => handle_client_lost h
        | Received pkt => handle_packet h pkt ;; handle_loop h rest
        end
      else ret tt
  end.

(** [TroopRequestHandler.handle]: the password test, then the loop. *)
Definition handle (h : TroopRequestHandler) (first : list message)
  (reads : list read) : M unit :=
  r <- not_authenticated h first ;;
  let '(h, refused) := r in
  if refused then ret tt else handle_loop h reads.

(** *** Lookups in the registry *)

(** [TroopServer.get_client_from_addr]: the first registered client that
    equals the address, or Python's [None]. *)
Definition get_client_from_addr (client_address : addr) : M (option Client) :=
  fun s => (Ok (find (fun client => client_eq client client_address)
                  (Dict.values (clients s))), s).

(** [TroopServer.get_client]: [self.clients[client_id]]. *)
Definition get_client (client_id : Z) : M Client :=
  fun s => match Dict.get client_id (clients s) with
           | Some c => (Ok c, s)
           | None => (Raise KeyError, s)
           end.

(** *** Shutdown and server notices *)

Definition with_running (v : bool) (s : TroopServer) :=
  mkServer (document s) (backend s) (peer_tag_doc s) (waiting_for_ack s)
    (acknowledged_clients s) (clients s) (max_id s) (last_id s) (password s)
    v (msg_queue s) (wire s).

(** Modelled from the spec: [MSG_KILL(src_id, string)] of [message.py]. *)
Definition MSG_KILL (src : Z) (str : string) : message :=
  Message src None (KILL str).

(** Modelled from the spec: [MSG_RESPONSE(src_id, string)] of [message.py]. *)
Definition MSG_RESPONSE (src : Z) (str : string) : message :=
  Message src None (RESPONSE str).

(** Modelled from the spec: [MSG_SET_ALL(src_id, document, ranges, locs)]
    of [message.py]. *)
Definition MSG_SET_ALL (src : Z) (d : text) (r l : list (Z * Z)) : message :=
  Message src None (SET_ALL d r l).

Definition kill_warning : string :=
  "Warning: Server manually killed by keyboard interrupt. Please close the application".

(** [TroopServer.kill]: the warning goes to every client, then [running]
    is cleared.  The log file and the listening socket are not modelled. *)
Definition kill : M unit :=
  let outgoing := MSG_KILL (-1) kill_warning in
  s <- get_state ;;
  for_each (Dict.values (clients s)) (fun client => send client outgoing) ;;
  modify (with_running false).

(** The one-character string ["\n"]. *)
Definition newline : string := String (ascii_of_nat 10) EmptyString.

(** [TroopServer.write], the replacement of [sys.stdout]. *)
Definition write (str : string) : M unit :=
  if negb (String.eqb str newline) then
    let outgoing := MSG_RESPONSE (-1) str in
    s <- get_state ;;
    for_each (Dict.values (clients s)) (fun client => send client outgoing)
  else ret tt.

(** [TroopServer.update_send]: rounds of the dispatch loop while [running]
    is set; a round on an empty queue only sleeps.  [rounds] bounds the
    number of rounds looked at. *)
Fixpoint update_send (rounds : nat) : M unit :=
  match rounds with
  | O => ret tt
  | S n =>
      s <- get_state ;;
      if running s then update_send_step ;; update_send n else ret tt
  end.

(** *** The handler's own client *)

(** [TroopRequestHandler.client]:
    [self.get_client(self.get_client_id())]. *)
Definition client (h : TroopRequestHandler) : M Client :=
  get_client (client_id h).

(** [TroopRequestHandler.update_client]. *)
Definition update_client (h : TroopRequestHandler) : M unit :=
  c <- client h ;;
  contents <- get_contents ;;
  let '(doc, ranges, locs) := contents in
  send c (MSG_SET_ALL (-1) doc ranges locs).

End Server.

(** ** Vocabulary of the specification *)

(** Every client of a list can be reached. *)
Definition reachable (link_up : sock -> bool) (cs : list Client) : bool :=
  forallb (fun c => link_up (source c)) cs.

(** The derived operation in the words of the specification: retains and
    deletes are copied, each inserted string becomes as many copies of the
    author's tag. *)
Definition annotation_op (tag : ascii) (ops : list op_val) : list op_val :=
  map (fun v => match v with
                | OpInt n => OpInt n
                | OpStr s => OpStr (repeat tag (List.length s))
                end) ops.

(** Expanding a run-length encoding back into tags. *)
Fixpoint expand_runs (get_peer_char : Z -> option ascii)
  (data : list (Z * Z)) : option text :=
  match data with
  | [] => Some []
  | (pid, n) :: r =>
      match get_peer_char pid, expand_runs get_peer_char r with
      | Some c, Some t => Some (repeat c (Z.to_nat n) ++ t)
      | _, _ => None
      end
  end.

Definition runs_total (data : list (Z * Z)) : Z :=
  fold_right (fun run acc => snd run + acc) 0 data.

(** No two neighbouring runs carry the same peer id. *)
Fixpoint adjacent_distinct (data : list (Z * Z)) : Prop :=
  match data with
  | [] => True
  | (a, _) :: r =>
      match r with
      | [] => True
      | (b, _) :: _ => a <> b /\ adjacent_distinct r
      end
  end.

(** A character of the annotation is a valid tag when it names a peer id
    whose tag it is. *)
Definition valid_tag (get_peer_char : Z -> option ascii)
  (get_peer_id_from_char : ascii -> option Z) (c : ascii) : bool :=
  match get_peer_id_from_char c with
  | Some i => match get_peer_char i with
              | Some c' => Ascii.eqb c' c
              | None => false
              end
  | None => false
  end.


(** The packets that sending [msg] to each client of [cs] puts on the wire. *)
Definition deliveries (msg : message) (cs : list Client)
  : list (sock * packet) :=
  map (fun c => (source c, Framed msg)) cs.

(** ** Sample environments and states *)

Definition all_up : sock -> bool := fun _ => true.

(** Every socket works except those listed. *)
Definition down (dead : list sock) : sock -> bool :=
  fun sk => negb (existsb (Nat.eqb sk) dead).

(** A four-letter peer alphabet: id [i] has the tag at position [i]. *)
Definition sample_alphabet : text := list_ascii_of_string "abcd".

Definition sample_peer_char (i : Z) : option ascii :=
  if i <? 0 then None else nth_error sample_alphabet (Z.to_nat i).

Fixpoint index_of (c : ascii) (l : text) : option Z :=
  match l with
  | [] => None
  | x :: r => if Ascii.eqb x c then Some 0
              else option_map Z.succ (index_of c r)
  end.

Definition sample_peer_id (c : ascii) : option Z := index_of c sample_alphabet.

Definition sample_operation_index (ops : list op_val) : Z := target_length ops.

Definition no_transform (a b : list op_val)
  : option (list op_val * list op_val) := None.

Definition peer (i : Z) (sk : sock) : Client :=
  mkClient ("10.0.0.1"%string, 5000 + i) sk i "peer"%string 0.

(** A registry of three slots ([max_id = 2]) whose allocator has reached
    the maximum, with ids 1 and 2 live and id 0 free again. *)
Definition registry_with_free_slot : TroopServer :=
  mkServer [] [] [] false [] [(1, peer 1 1%nat); (2, peer 2 2%nat)] 2 2
    "5f4dcc3b"%string true [] [].

(** A server that nobody has joined yet, for the alphabet above. *)
Definition fresh_server : TroopServer :=
  mkServer [] [] [] false [] [] 3 (-1) "5f4dcc3b"%string true [] [].

(** Three peers in a session whose document is ["hi"], written by peer 0;
    id 3 has been handed to a fourth connection that has not joined yet. *)
Definition session : TroopServer :=
  mkServer (list_ascii_of_string "hi")
    [[OpStr (list_ascii_of_string "hi")]]
    (list_ascii_of_string "aa") false []
    [(0, peer 0 0%nat); (1, peer 1 1%nat); (2, peer 2 2%nat)] 3 3
    "5f4dcc3b"%string true [] [].

(** The same session while a join is pending and peer 0 has acknowledged. *)
Definition pending_session : TroopServer :=
  with_acknowledged_clients [0] (with_waiting_for_ack true session).

(** The handler of a fourth connection, authenticated with id 3. *)
Definition newcomer : TroopRequestHandler :=
  mkHandler ("10.0.0.1"%string, 5003) 3%nat 3.

(** The handler of peer 1's connection. *)
Definition handler_of_peer_1 : TroopRequestHandler :=
  mkHandler ("10.0.0.1"%string, 5001) 1%nat 1.

(** The [MSG_CONNECT] of the fourth connection. *)
Definition connect_request : message :=
  MSG_CONNECT 3 "dana" "10.0.0.1" 5003.

(** A second [MSG_CONNECT] from peer 1, whose address is registered. *)
Definition reconnect_request : message :=
  MSG_CONNECT 1 "peer" "10.0.0.1" 5001.

(** A notice authored by peer 1, without a [reply] flag. *)
Definition notice : message := Message 1 None (RESPONSE "hello").

(** A notice of the server itself. *)
Definition server_notice : message := Message (-1) None (RESPONSE "hello").

(** Peer 1 asks not to be echoed. *)
Definition quiet_notice : message := Message 1 (Some 0) (RESPONSE "hello").

(** Peer 1 appends ["!"] to the document, at the current revision. *)
Definition edit : message :=
  Message 1 None (OPERATION 1 [OpInt 2; OpStr (list_ascii_of_string "!")]).

(** Peer 1 acknowledges a join. *)
Definition ack_of_peer_1 : message := Message 1 None CONNECT_ACK.

(** A connection that has not authenticated yet. *)
Definition stranger : TroopRequestHandler :=
  mkHandler ("10.0.0.9"%string, 6000) 9%nat 0.

(** ** Invariants and runs of the server *)

(** The state [TroopServer.__init__] builds: empty document, annotation,
    log, registry and queue, no join pending, [last_id = -1]; [max_id] is
    [len(PEER_CHARS) - 1] and [digest] the digest of the password typed at
    the prompt. *)
Definition initial_server (max_id : Z) (digest : string) : TroopServer :=
  mkServer [] [] [] false [] [] max_id (-1) digest true [] [].

(** Every key of the registry is the id of its client, and no key occurs
    twice. *)
Definition registry_ok (d : Dict.t) : Prop :=
  NoDup (Dict.keys d) /\ Forall (fun kv => id (snd kv) = fst kv) d.

(** The annotation is as long as the document. *)
Definition texts_aligned (s : TroopServer) : Prop :=
  List.length (peer_tag_doc s) = List.length (document s).

(** Every character of the annotation is a valid tag. *)
Definition tags_valid (get_peer_char : Z -> option ascii)
  (get_peer_id_from_char : ascii -> option Z) (s : TroopServer) : Prop :=
  forallb (valid_tag get_peer_char get_peer_id_from_char) (peer_tag_doc s)
  = true.

(** The author of a message has a tag. *)
Definition tagged (get_peer_char : Z -> option ascii) (m : message) : bool :=
  match get_peer_char (src_id m) with Some _ => true | None => false end.

(** The allocator is within its bounds. *)
Definition last_id_ok (s : TroopServer) : Prop :=
  -1 <= last_id s <= max_id s.

(** The results of [n] successive calls of [get_next_id]. *)
Fixpoint allocate (n : nat) (s : TroopServer) : list (result Z) :=
  match n with
  | O => []
  | S k => fst (get_next_id s) :: allocate k (snd (get_next_id s))
  end.

(** The [src_id]s of a list of messages. *)
Definition authors (ms : list message) : list Z := map src_id ms.

(** What the threads of the server do, one method call at a time: a
    handler authenticates, handles one message or loses its client; the
    dispatch loop runs one round; the server is killed or prints. *)
Inductive event : Type :=
| EvAuthenticate (h : TroopRequestHandler) (pw : string)
| EvHandle (h : TroopRequestHandler) (msg : message)
| EvLost (h : TroopRequestHandler)
| EvDispatch
| EvKill
| EvWrite (str : string).

Section Runs.

Variable link_up : sock -> bool.
Variable get_peer_char : Z -> option ascii.
Variable get_peer_id_from_char : ascii -> option Z.
Variable get_operation_index : list op_val -> Z.
Variable transform :
  list op_val -> list op_val -> option (list op_val * list op_val).

(** The state an event leaves behind; an exception ends the method call
    and keeps what it had written. *)
Definition run_event (e : event) (s : TroopServer) : TroopServer :=
  match e with
  | EvAuthenticate h pw => snd (authenticate link_up h pw s)
  | EvHandle h msg => snd (handle_msg link_up get_peer_id_from_char h msg s)
  | EvLost h => snd (handle_client_lost link_up h s)
  | EvDispatch =>
      snd (update_send_step link_up get_peer_char get_operation_index
             transform s)
  | EvKill => snd (kill link_up s)
  | EvWrite str => snd (write link_up str s)
  end.

Definition run_events (es : list event) (s : TroopServer) : TroopServer :=
  fold_left (fun s e => run_event e s) es s.

End Runs.

(** An event that handles a message handles one whose author has a tag. *)
Definition handles_tagged (get_peer_char : Z -> option ascii) (e : event)
  : bool :=
  match e with
  | EvHandle _ msg => tagged get_peer_char msg
  | _ => true
  end.

(** A character of the annotation for which [get_peer_id_from_char]
    answers. *)
Definition has_peer_id (get_peer_id_from_char : ascii -> option Z)
  (c : ascii) : bool :=
  match get_peer_id_from_char c with Some _ => true | None => false end.

(** ** Further samples *)

(** The session with the edit of peer 1 waiting in the dispatch queue. *)
Definition session_with_edit : TroopServer := with_msg_queue [edit] session.

(** The same, after peer 1 has been evicted. *)
Definition session_without_author : TroopServer :=
  with_clients [(0, peer 0 0%nat); (2, peer 2 2%nat)] session_with_edit.

(** Acknowledgements of peers 1, 2 and 0, in that order. *)
Definition three_acks : list message :=
  [ack_of_peer_1; Message 2 None CONNECT_ACK; Message 0 None CONNECT_ACK].

(** One connection from start to end: it authenticates, joins,
    acknowledges its own join, sends an edit that is dispatched, and is
    lost. *)
Definition sample_run : list event :=
  [EvAuthenticate stranger "5f4dcc3b";
   EvHandle stranger (MSG_CONNECT 0 "ann" "10.0.0.9" 6000);
   EvHandle stranger (Message 0 None CONNECT_ACK);
   EvHandle stranger
     (Message 0 None (OPERATION 0 [OpStr (list_ascii_of_string "hi")]));
   EvDispatch;
   EvLost stranger].

(** ** Reading a reply back *)

(** The integer that a string of decimal digits with an optional leading
    minus sign denotes, [None] for any other string: what a client that
    reads the reply of [authenticate] with Python's [int] obtains. *)
Definition read_decimal (s : string) : option Z :=
  match s with
  | EmptyString => None
  | String a r =>
      if Ascii.eqb a "-" then
        option_map (fun d => - Z.of_N (N.of_uint d)) (NilZero.uint_of_string r)
      else
        option_map (fun d => Z.of_N (N.of_uint d)) (NilZero.uint_of_string s)
  end.

(** A server with 62 tags on which twelve ids have been handed out. *)
Definition busy_server : TroopServer :=
  with_last_id 11 (initial_server 61 "5f4dcc3b").

(** * Properties *)

Section Properties.

Variable link_up : sock -> bool.
Variable get_peer_char : Z -> option ascii.
Variable get_peer_id_from_char : ascii -> option Z.
Variable get_operation_index : list op_val -> Z.
Variable transform :
  list op_val -> list op_val -> option (list op_val * list op_val).

(** ** The monad and the record *)

Lemma bind_ok {A B} (m : M A) (k : A -> M B) (s s' : TroopServer) (a : A) :
  m s = (Ok a, s') -> bind m k s = k a s'.
Proof. intros H. unfold bind. now rewrite H. Qed.

Lemma bind_raise {A B} (m : M A) (k : A -> M B) (s s' : TroopServer) e :
  m s = (Raise e, s') -> bind m k s = (Raise e, s').
Proof. intros H. unfold bind. now rewrite H. Qed.

Lemma with_wire_same (s : TroopServer) : with_wire (wire s) s = s.
Proof. now destruct s. Qed.

Lemma with_wire_twice (w w' : list (sock * packet)) (s : TroopServer) :
  with_wire w (with_wire w' s) = with_wire w s.
Proof. reflexivity. Qed.

Lemma with_wire_nil (s : TroopServer) : with_wire (wire s ++ []) s = s.
Proof. rewrite app_nil_r. apply with_wire_same. Qed.

(** A property of the state that every step of a computation keeps is
    kept by the computation, whether it returns or raises. *)
Lemma bind_keeps {A B} (R : TroopServer -> Prop) (m : M A) (k : A -> M B) :
  (forall s, R s -> R (snd (m s))) ->
  (forall a s, R s -> R (snd (k a s))) ->
  forall s, R s -> R (snd (bind m k s)).
Proof.
  intros Hm Hk s Hs. unfold bind. specialize (Hm s Hs).
  destruct (m s) as [[a | e] s1]; cbn in Hm.
  - now apply Hk.
  - exact Hm.
Qed.

Lemma for_each_keeps {A} (R : TroopServer -> Prop) (xs : list A)
  (body : A -> M unit) :
  (forall x s, R s -> R (snd (body x s))) ->
  forall s, R s -> R (snd (for_each xs body s)).
Proof.
  intros Hbody. induction xs as [| x r IH]; intros s Hs; cbn [for_each].
  - exact Hs.
  - apply bind_keeps; [apply Hbody | intros _; exact IH | exact Hs].
Qed.

(** ** Id allocation *)

Lemma get_next_id_increment (s : TroopServer) :
  last_id s < max_id s ->
  get_next_id s = (Ok (last_id s + 1), with_last_id (last_id s + 1) s).
Proof.
  intros H. unfold get_next_id.
  apply Z.ltb_lt in H. rewrite H. reflexivity.
Qed.

(** Whatever the registry holds, the overflow branch answers [-2]. *)
Lemma get_next_id_overflow (s : TroopServer) :
  max_id s <= last_id s -> fst (get_next_id s) = Ok (-2).
Proof.
  intros H. unfold get_next_id.
  apply Z.ltb_ge in H. rewrite H. reflexivity.
Qed.

(** ** The acknowledgement barrier *)

Lemma acked_In (l : list Z) (k : Z) : acked l k = true <-> In k l.
Proof.
  unfold acked. rewrite existsb_exists. split.
  - intros [x [Hin Heq]]. apply Z.eqb_eq in Heq. now subst.
  - intros Hin. exists k. split; [assumption | apply Z.eqb_refl].
Qed.

(** C4: [connect_ack] records the sender, and afterwards the barrier is
    down exactly when every registered id has acknowledged; the list of
    acknowledgements is emptied when the barrier goes down and kept
    otherwise.  The handler calls [connect_ack] only while
    [waiting_for_ack] is set. *)
Theorem connect_ack_releases_barrier (msg : message) (s : TroopServer) :
  waiting_for_ack s = true ->
  let acks := acknowledged_clients s ++ [src_id msg] in
  let s' := snd (connect_ack msg s) in
  fst (connect_ack msg s) = Ok tt /\
  In (src_id msg) acks /\
  clients s' = clients s /\
  (waiting_for_ack s' = false <->
   forall k, In k (Dict.keys (clients s')) -> In k acks) /\
  (waiting_for_ack s' = false -> acknowledged_clients s' = []) /\
  (waiting_for_ack s' = true -> acknowledged_clients s' = acks).
Proof.
  intros Hw acks s'. subst s'. unfold connect_ack.
  cbn [acknowledged_clients clients with_acknowledged_clients].
  fold acks.
  destruct (forallb (acked acks) (Dict.keys (clients s))) eqn:Hall; cbn.
  - repeat split; try reflexivity.
    + apply in_or_app. right. now left.
    + intros _ k Hk. rewrite forallb_forall in Hall.
      apply acked_In. now apply Hall.
    + discriminate.
  - repeat split; try reflexivity.
    + apply in_or_app. right. now left.
    + rewrite Hw. discriminate.
    + intros Hk. exfalso.
      assert (forallb (acked acks) (Dict.keys (clients s)) = true).
      { apply forallb_forall. intros k Hin. apply acked_In. now apply Hk. }
      congruence.
    + rewrite Hw. discriminate.
Qed.

(** ** The handler during a pending join *)

Lemma handle_msg_dropped (h : TroopRequestHandler) (msg : message)
  (s : TroopServer) :
  waiting_for_ack s = true ->
  is_MSG_CONNECT msg = false ->
  is_MSG_CONNECT_ACK msg = false ->
  handle_msg link_up get_peer_id_from_char h msg s = (Ok tt, s).
Proof.
  intros Hw Hc Ha. unfold handle_msg. rewrite Hc.
  unfold bind, get_state. rewrite Hw, Ha. reflexivity.
Qed.

(** A whole packet of such messages leaves the server as it was. *)
Lemma handle_packet_dropped (h : TroopRequestHandler) (pkt : list message)
  (s : TroopServer) :
  waiting_for_ack s = true ->
  Forall (fun m => is_MSG_CONNECT m = false /\ is_MSG_CONNECT_ACK m = false) pkt ->
  handle_packet link_up get_peer_id_from_char h pkt s = (Ok tt, s).
Proof.
  intros Hw Hall. unfold handle_packet.
  induction Hall as [| m r [Hc Ha] _ IH]; [reflexivity |].
  cbn [for_each]. unfold bind at 1.
  rewrite handle_msg_dropped by assumption. exact IH.
Qed.

(** C8: while [waiting_for_ack] is set, a message that is neither a
    [MSG_CONNECT] nor a [MSG_CONNECT_ACK] is dropped by the handler: the
    server state, and with it the dispatch queue and the wire, is left
    as it was.  A [MSG_CONNECT_ACK] is consumed by [connect_ack]; it is
    neither queued nor sent to anyone. *)
Theorem barrier_drops_other_messages (h : TroopRequestHandler)
  (msg : message) (s : TroopServer) :
  waiting_for_ack s = true ->
  is_MSG_CONNECT msg = false ->
  let s' := snd (handle_msg link_up get_peer_id_from_char h msg s) in
  (is_MSG_CONNECT_ACK msg = false ->
   handle_msg link_up get_peer_id_from_char h msg s = (Ok tt, s)) /\
  msg_queue s' = msg_queue s /\
  wire s' = wire s /\
  document s' = document s /\
  backend s' = backend s /\
  peer_tag_doc s' = peer_tag_doc s.
Proof.
  intros Hw Hc s'. subst s'. split.
  - intros Ha. now apply handle_msg_dropped.
  - unfold handle_msg. rewrite Hc. unfold bind, get_state. rewrite Hw.
    destruct (is_MSG_CONNECT_ACK msg).
    + unfold connect_ack.
      destruct (forallb _ _); cbn; repeat split; reflexivity.
    + cbn. repeat split; reflexivity.
Qed.

(** ** Sending *)

Lemma send_up (c : Client) (msg : message) (s : TroopServer) :
  link_up (source c) = true ->
  send link_up c msg s
  = (Ok tt, with_wire (wire s ++ [(source c, Framed msg)]) s).
Proof. intros H. unfold send, sendall. now rewrite H. Qed.

Lemma send_down (c : Client) (msg : message) (s : TroopServer) :
  link_up (source c) = false ->
  send link_up c msg s = (Raise (DeadClientError (hostname c)), s).
Proof. intros H. unfold send, sendall. now rewrite H. Qed.

(** A send changes nothing but the wire, whether it succeeds or not. *)
Lemma send_frame (c : Client) (msg : message) (s : TroopServer) :
  exists w, snd (send link_up c msg s) = with_wire w s.
Proof.
  destruct (link_up (source c)) eqn:H.
  - rewrite send_up by assumption. now eexists.
  - rewrite send_down by assumption. exists (wire s).
    symmetry. apply with_wire_same.
Qed.

Lemma broadcast_frame (msg : message) (cs : list Client) (s : TroopServer) :
  exists w, snd (for_each cs (fun c => send link_up c msg) s) = with_wire w s.
Proof.
  revert s. induction cs as [| c r IH]; intros s; cbn [for_each].
  - exists (wire s). symmetry. apply with_wire_same.
  - unfold bind. destruct (send_frame c msg s) as [w Hw].
    destruct (send link_up c msg s) as [[[] | e] s1]; cbn in Hw; subst s1.
    + destruct (IH (with_wire w s)) as [w' Hw']. exists w'.
      now rewrite Hw'.
    + now exists w.
Qed.

(** When every client of the list can be reached, each of them receives
    the message, in order. *)
Lemma broadcast_reachable (msg : message) (cs : list Client)
  (s : TroopServer) :
  reachable link_up cs = true ->
  for_each cs (fun c => send link_up c msg) s
  = (Ok tt, with_wire (wire s ++ deliveries msg cs) s).
Proof.
  revert s. induction cs as [| c r IH]; intros s Hr; cbn [for_each].
  - cbn. now rewrite with_wire_nil.
  - cbn in Hr. apply andb_prop in Hr. destruct Hr as [Hc Hr].
    erewrite bind_ok by (now apply send_up).
    rewrite IH by assumption. cbn [wire with_wire deliveries map].
    rewrite <- app_assoc. reflexivity.
Qed.

(** ** Broadcast policy *)


Lemma respond_loop_reachable (msg : message) (cs : list Client)
  (s : TroopServer) :
  reachable link_up cs = true ->
  for_each cs
    (fun client =>
       try_dead (if should_send client msg then send link_up client msg
                 else ret tt)
                (fun err => remove_client link_up (id client))) s
  = (Ok tt,
     with_wire (wire s ++ deliveries msg
                  (filter (fun c => should_send c msg) cs)) s).
Proof.
  revert s. induction cs as [| c r IH]; intros s Hr; cbn [for_each].
  - cbn. now rewrite with_wire_nil.
  - cbn in Hr. apply andb_prop in Hr. destruct Hr as [Hc Hr].
    cbn [filter]. destruct (should_send c msg).
    + erewrite bind_ok
        by (unfold try_dead; rewrite send_up by assumption; reflexivity).
      rewrite IH by assumption. cbn [wire with_wire deliveries map].
      rewrite <- app_assoc. reflexivity.
    + erewrite bind_ok by reflexivity. now apply IH.
Qed.


(** ** Joining *)

Lemma get_contents_eq (s : TroopServer) :
  get_contents get_peer_id_from_char s
  = (match client_ranges get_peer_id_from_char (peer_tag_doc s) with
     | Ok ranges =>
         Ok (document s, ranges,
             map (fun c => (id c, index c)) (Dict.values (clients s)))
     | Raise e => Raise e
     end, s).
Proof.
  unfold get_contents, bind, get_state, get_client_ranges, get_client_locs.
  now destruct (client_ranges get_peer_id_from_char (peer_tag_doc s)).
Qed.

(** [update_all_clients] touches nothing but the wire, whatever happens. *)
Lemma update_all_clients_frame (s : TroopServer) :
  exists w,
    snd (update_all_clients link_up get_peer_id_from_char s) = with_wire w s.
Proof.
  unfold update_all_clients, bind at 1. rewrite get_contents_eq.
  destruct (client_ranges get_peer_id_from_char (peer_tag_doc s))
    as [ranges | e].
  - unfold bind, get_state. apply broadcast_frame.
  - exists (wire s). symmetry. apply with_wire_same.
Qed.

Lemma update_all_clients_reachable (s : TroopServer)
  (ranges : list (Z * Z)) :
  client_ranges get_peer_id_from_char (peer_tag_doc s) = Ok ranges ->
  reachable link_up (Dict.values (clients s)) = true ->
  update_all_clients link_up get_peer_id_from_char s
  = (Ok tt,
     with_wire
       (wire s ++
        deliveries
          (MSG_RESET (-1) (document s) ranges
             (map (fun c => (id c, index c)) (Dict.values (clients s))))
          (Dict.values (clients s))) s).
Proof.
  intros Hranges Hr. unfold update_all_clients, bind at 1.
  rewrite get_contents_eq, Hranges.
  unfold bind, get_state. now apply broadcast_reachable.
Qed.

Lemma is_MSG_CONNECT_body (msg : message) :
  is_MSG_CONNECT msg = true ->
  exists nm hn pt, body msg = CONNECT nm hn pt.
Proof.
  unfold is_MSG_CONNECT. destruct (body msg); try discriminate.
  intros _. now eauto.
Qed.

Lemma handle_connect_known (h : TroopRequestHandler) (msg : message)
  (s : TroopServer) :
  is_MSG_CONNECT msg = true ->
  address_registered (client_address h) s = true ->
  handle_connect link_up h msg s = (Ok None, s).
Proof.
  intros Hc Ha. destruct (is_MSG_CONNECT_body msg Hc) as [nm [hn [pt Hb]]].
  unfold handle_connect. rewrite Hb. unfold bind, get_state.
  now rewrite Ha.
Qed.

(** C10: a [MSG_CONNECT] from an address that is already registered
    makes [handle_connect] return no client and leave the server as it
    was; the handler around it changes neither the registry nor the
    acknowledgement state, and, when the annotation can be encoded and
    every client can be reached, it still sends the baseline to every
    client and empties the revision log. *)
Theorem connect_from_registered_address (h : TroopRequestHandler)
  (msg : message) (s : TroopServer) :
  is_MSG_CONNECT msg = true ->
  address_registered (client_address h) s = true ->
  let s' := snd (handle_msg link_up get_peer_id_from_char h msg s) in
  handle_connect link_up h msg s = (Ok None, s) /\
  clients s' = clients s /\
  waiting_for_ack s' = waiting_for_ack s /\
  acknowledged_clients s' = acknowledged_clients s /\
  (forall ranges,
      client_ranges get_peer_id_from_char (peer_tag_doc s) = Ok ranges ->
      reachable link_up (Dict.values (clients s)) = true ->
      handle_msg link_up get_peer_id_from_char h msg s
      = (Ok tt,
         with_backend []
           (with_wire
              (wire s ++
               deliveries
                 (MSG_RESET (-1) (document s) ranges
                    (map (fun c => (id c, index c))
                       (Dict.values (clients s))))
                 (Dict.values (clients s))) s))).
Proof.
  intros Hc Ha s'. subst s'.
  pose proof (handle_connect_known h msg s Hc Ha) as Hk.
  split; [exact Hk |].
  unfold handle_msg. rewrite Hc. erewrite bind_ok by exact Hk.
  split; [| split; [| split]].
  1-3: destruct (update_all_clients_frame s) as [w Hw]; unfold bind;
    destruct (update_all_clients link_up get_peer_id_from_char s)
      as [[[] | e] s1]; cbn in Hw; subst s1; reflexivity.
  intros ranges Hranges Hr.
  erewrite bind_ok by (apply update_all_clients_reachable; eassumption).
  reflexivity.
Qed.

Lemma reachable_set (k : Z) (v : Client) (d : Dict.t) :
  reachable link_up (Dict.values d) = true ->
  link_up (source v) = true ->
  reachable link_up (Dict.values (Dict.set k v d)) = true.
Proof.
  intros Hd Hv. induction d as [| [k' v'] r IH]; cbn.
  - now rewrite Hv.
  - cbn in Hd. apply andb_prop in Hd. destruct Hd as [H1 H2].
    destruct (k' =? k); cbn.
    + now rewrite Hv.
    + rewrite H1. now apply IH.
Qed.

Lemma get_set_same (k : Z) (v : Client) (d : Dict.t) :
  Dict.get k (Dict.set k v d) = Some v.
Proof.
  unfold Dict.get. induction d as [| [k' v'] r IH]; cbn.
  - now rewrite Z.eqb_refl.
  - destruct (k' =? k) eqn:E; cbn.
    + now rewrite Z.eqb_refl.
    + now rewrite E.
Qed.

Lemma connect_loop_reachable (addr0 : addr) (new_client : Client)
  (msg1 : message) (cs : list Client) (s : TroopServer) :
  reachable link_up cs = true ->
  link_up (source new_client) = true ->
  exists W,
    for_each cs
      (fun client =>
         send link_up client msg1 ;;
         (if negb (client_eq client addr0) then
            send link_up new_client
              (MSG_CONNECT (id client) (name client)
                 (hostname client) (port client))
          else ret tt) ;;
         send link_up client (MSG_REQUEST_ACK (-1))) s
    = (Ok tt, with_wire (wire s ++ W) s).
Proof.
  intros Hr Hn. revert s.
  induction cs as [| c r IH]; intros s; cbn [for_each].
  - exists []. now rewrite with_wire_nil.
  - cbn in Hr. apply andb_prop in Hr. destruct Hr as [Hc Hr].
    specialize (IH Hr).
    destruct (negb (client_eq c addr0)).
    + erewrite bind_ok.
      2:{ erewrite bind_ok by (now apply send_up).
          erewrite bind_ok by (now apply send_up). now apply send_up. }
      match goal with
      | |- context [for_each r _ ?s1] => destruct (IH s1) as [W HW]
      end.
      rewrite HW. cbn [wire with_wire].
      eexists. rewrite <- !app_assoc. reflexivity.
    + erewrite bind_ok.
      2:{ erewrite bind_ok by (now apply send_up).
          erewrite bind_ok by reflexivity. now apply send_up. }
      match goal with
      | |- context [for_each r _ ?s1] => destruct (IH s1) as [W HW]
      end.
      rewrite HW. cbn [wire with_wire].
      eexists. rewrite <- !app_assoc. reflexivity.
Qed.





(** ** Text operations and the annotation *)

Lemma base_length_int (n : Z) (r : list op_val) :
  base_length (OpInt n :: r) = Z.abs n + base_length r.
Proof. reflexivity. Qed.

Lemma base_length_str (t : text) (r : list op_val) :
  base_length (OpStr t :: r) = base_length r.
Proof. reflexivity. Qed.

Lemma target_length_int (n : Z) (r : list op_val) :
  target_length (OpInt n :: r) = (if 0 <=? n then n else 0) + target_length r.
Proof. reflexivity. Qed.

Lemma target_length_str (t : text) (r : list op_val) :
  target_length (OpStr t :: r) = Z.of_nat (List.length t) + target_length r.
Proof. reflexivity. Qed.

Lemma base_length_nonneg (ops : list op_val) : 0 <= base_length ops.
Proof.
  induction ops as [| [n | t] r IH];
    rewrite ?base_length_int, ?base_length_str; cbn; lia.
Qed.

Lemma apply_ops_lengths (ops : list op_val) :
  forall doc d,
    apply_ops ops doc = Some d ->
    Z.of_nat (List.length doc) = base_length ops /\
    Z.of_nat (List.length d) = target_length ops.
Proof.
  induction ops as [| v r IH]; intros doc d H.
  - destruct doc; [| discriminate]. injection H as <-. now cbn.
  - destruct v as [n | t]; cbn [apply_ops] in H.
    + destruct (Nat.leb_spec (Z.abs_nat n) (List.length doc)) as [Hk | Hk];
        [| discriminate].
      pose proof (Zabs2Nat.id_abs n) as Habs.
      pose proof (length_skipn (Z.abs_nat n) doc) as Hskip.
      destruct (Z.leb_spec 0 n) as [Hn | Hn].
      * destruct (apply_ops r (skipn (Z.abs_nat n) doc)) as [d' |] eqn:E;
          [| discriminate].
        injection H as <-. destruct (IH _ _ E) as [Hb Ht].
        rewrite base_length_int, target_length_int.
        rewrite length_app, length_firstn, Nat.min_l by assumption.
        destruct (Z.leb_spec 0 n); lia.
      * destruct (IH _ _ H) as [Hb Ht].
        rewrite base_length_int, target_length_int.
        destruct (Z.leb_spec 0 n); lia.
    + destruct (apply_ops r doc) as [d' |] eqn:E; [| discriminate].
      injection H as <-. destruct (IH _ _ E) as [Hb Ht].
      rewrite base_length_str, target_length_str, length_app. lia.
Qed.

Lemma apply_ops_defined (ops : list op_val) :
  forall doc,
    Z.of_nat (List.length doc) = base_length ops ->
    exists d, apply_ops ops doc = Some d.
Proof.
  induction ops as [| v r IH]; intros doc H.
  - destruct doc; [now exists [] | discriminate].
  - destruct v as [n | t]; cbn [apply_ops];
      rewrite ?base_length_int, ?base_length_str in H.
    + pose proof (Zabs2Nat.id_abs n) as Habs.
      pose proof (length_skipn (Z.abs_nat n) doc) as Hskip.
      pose proof (base_length_nonneg r) as Hb.
      destruct (Nat.leb_spec (Z.abs_nat n) (List.length doc)) as [Hk | Hk];
        [| lia].
      destruct (IH (skipn (Z.abs_nat n) doc)) as [d' Hd']; [lia |].
      rewrite Hd'. destruct (0 <=? n); cbn; eauto.
    + destruct (IH doc H) as [d' Hd']. rewrite Hd'. cbn. eauto.
Qed.

Lemma annotation_op_lengths (tag : ascii) (ops : list op_val) :
  base_length (annotation_op tag ops) = base_length ops /\
  target_length (annotation_op tag ops) = target_length ops.
Proof.
  induction ops as [| [n | t] r [IHb IHt]]; cbn [annotation_op map].
  - now split.
  - fold (annotation_op tag r).
    rewrite !base_length_int, !target_length_int. lia.
  - fold (annotation_op tag r).
    rewrite !base_length_str, !target_length_str, repeat_length. lia.
Qed.

(** The comprehension of [handle_operation] computes the derived
    operation of the specification. *)
Lemma peer_ops_annotation (src : Z) (tag : ascii) (ops : list op_val) :
  get_peer_char src = Some tag ->
  peer_ops get_peer_char src ops = Ok (annotation_op tag ops).
Proof.
  intros Htag. induction ops as [| [n | t] r IH]; cbn [peer_ops].
  - reflexivity.
  - now rewrite IH.
  - now rewrite Htag, IH.
Qed.

Lemma receive_operation_cases (user revision : Z) (op : list op_val)
  (s : TroopServer) :
  (exists e, receive_operation transform user revision op s = (Raise e, s)) \/
  (exists op' d,
      apply_ops op' (document s) = Some d /\
      receive_operation transform user revision op s
      = (Ok op', with_backend (backend s ++ [op']) (with_document d s))).
Proof.
  unfold receive_operation.
  destruct ((0 <=? revision)
            && (revision <=? Z.of_nat (List.length (backend s))));
    [| left; now eexists].
  destruct (rebase transform op (skipn (Z.to_nat revision) (backend s)))
    as [op' |]; [| left; now eexists].
  destruct (apply_ops op' (document s)) as [d |] eqn:E;
    [| left; now eexists].
  right. now exists op', d.
Qed.

Lemma with_clients_same (s : TroopServer) : with_clients (clients s) s = s.
Proof. now destruct s. Qed.

(** The state in which [handle_operation] leaves the server once the
    transform engine has accepted the edit. *)
Lemma handle_operation_accepted (msg : message) (s s1 : TroopServer)
  (tag : ascii) (revision : Z) (operation op' : list op_val) (tags : text) :
  body msg = OPERATION revision operation ->
  get_peer_char (src_id msg) = Some tag ->
  receive_operation transform (src_id msg) revision operation s
  = (Ok op', s1) ->
  apply_ops (annotation_op tag op') (peer_tag_doc s1) = Some tags ->
  exists r cs,
    handle_operation get_peer_char get_operation_index transform msg s
    = (r, with_clients cs (with_peer_tag_doc tags s1)).
Proof.
  intros Hbody Htag Hrecv Htags. unfold handle_operation. rewrite Hbody.
  erewrite bind_ok by exact Hrecv. cbn [src_id reply].
  erewrite bind_ok
    by (unfold lift; rewrite (peer_ops_annotation _ _ op' Htag); reflexivity).
  unfold bind at 1. unfold get_state at 1. rewrite Htags.
  unfold bind at 1. unfold modify at 1.
  destruct (Dict.get (src_id msg) (clients s1)) as [client |].
  - unfold bind, modify, ret. now eexists; eexists.
  - unfold raise. exists (Raise KeyError), (clients (with_peer_tag_doc tags s1)).
    now rewrite with_clients_same.
Qed.

(** C5: [handle_operation] keeps the annotation as long as the document.
    For an edit that the transform engine accepts, the derived operation
    keeps the integers of the transformed operation and replaces each
    inserted string by as many copies of the author's tag; it applies to
    the annotation, and the result is as long as the new document.  When
    the edit is refused, neither string changes. *)
Theorem handle_operation_keeps_lengths (msg : message) (s : TroopServer)
  (tag : ascii) :
  get_peer_char (src_id msg) = Some tag ->
  List.length (peer_tag_doc s) = List.length (document s) ->
  let s' := snd (handle_operation get_peer_char get_operation_index
                   transform msg s) in
  List.length (peer_tag_doc s') = List.length (document s') /\
  (forall revision operation op s1,
      body msg = OPERATION revision operation ->
      receive_operation transform (src_id msg) revision operation s
      = (Ok op, s1) ->
      peer_ops get_peer_char (src_id msg) op = Ok (annotation_op tag op) /\
      apply_ops op (document s) = Some (document s') /\
      apply_ops (annotation_op tag op) (peer_tag_doc s)
      = Some (peer_tag_doc s')).
Proof.
  intros Htag Hlen s'.
  destruct (body msg) as [| | | revision operation | | | | | | |] eqn:Hbody;
    try (subst s'; unfold handle_operation; rewrite Hbody;
         split; [exact Hlen | intros; discriminate]).
  destruct (receive_operation_cases (src_id msg) revision operation s)
    as [[e He] | [op' [d [Hd Hrecv]]]].
  - subst s'. unfold handle_operation. rewrite Hbody.
    erewrite bind_raise by exact He. split; [exact Hlen |].
    intros rev0 operation0 op s1 Hb Hr. injection Hb as <- <-.
    rewrite He in Hr. discriminate.
  - destruct (apply_ops_lengths _ _ _ Hd) as [Hb Ht].
    destruct (annotation_op_lengths tag op') as [Hab Hat].
    destruct (apply_ops_defined (annotation_op tag op') (peer_tag_doc s))
      as [tags Htags]; [rewrite Hab; lia |].
    destruct (apply_ops_lengths _ _ _ Htags) as [_ Htt].
    destruct (handle_operation_accepted msg s _ tag revision operation op'
                tags Hbody Htag Hrecv Htags) as [r [cs Hrun]].
    subst s'. rewrite Hrun. cbn. split; [lia |].
    intros rev0 operation0 op s1 Hbody' Hr. injection Hbody' as <- <-.
    rewrite Hrecv in Hr. injection Hr as <- <-.
    rewrite (peer_ops_annotation _ _ op' Htag). now repeat split.
Qed.

(** ** Run-length encoding of the annotation *)

Lemma valid_tag_id (c : ascii) :
  valid_tag get_peer_char get_peer_id_from_char c = true ->
  exists i, get_peer_id_from_char c = Some i /\ get_peer_char i = Some c.
Proof.
  unfold valid_tag. destruct (get_peer_id_from_char c) as [i |];
    [| discriminate].
  destruct (get_peer_char i) as [c' |] eqn:E; [| discriminate].
  intros H. apply Ascii.eqb_eq in H. subst c'. now exists i.
Qed.

Lemma repeat_succ_app (p : ascii) (count : Z) (r : text) :
  1 <= count ->
  repeat p (Z.to_nat (count + 1)) ++ r = repeat p (Z.to_nat count) ++ p :: r.
Proof.
  intros H. replace (Z.to_nat (count + 1)) with (S (Z.to_nat count)) by lia.
  cbn [repeat]. rewrite repeat_cons, <- app_assoc. reflexivity.
Qed.

(** The loop appends to [data] an encoding of the pending run followed
    by the rest of the string. *)
Lemma ranges_loop_spec (rest : text) :
  forall (data : list (Z * Z)) (p : ascii) (count : Z),
    1 <= count ->
    valid_tag get_peer_char get_peer_id_from_char p = true ->
    forallb (valid_tag get_peer_char get_peer_id_from_char) rest = true ->
    exists pid n tail,
      get_peer_id_from_char p = Some pid /\
      ranges_loop get_peer_id_from_char rest data p count
      = Ok (data ++ (pid, n) :: tail) /\
      expand_runs get_peer_char ((pid, n) :: tail)
      = Some (repeat p (Z.to_nat count) ++ rest) /\
      runs_total ((pid, n) :: tail) = count + Z.of_nat (List.length rest) /\
      adjacent_distinct ((pid, n) :: tail) /\
      Forall (fun run => 1 <= snd run) ((pid, n) :: tail).
Proof.
  induction rest as [| char r IH]; intros data p count Hcount Hp Hrest.
  - destruct (valid_tag_id p Hp) as [pid [Hid Hch]].
    exists pid, count, []. cbn [ranges_loop].
    replace (0 <? count) with true by (symmetry; apply Z.ltb_lt; lia).
    rewrite Hid. cbn [expand_runs]. rewrite Hch.
    split; [reflexivity |]. split; [reflexivity |].
    split; [reflexivity |]. split; [cbn; lia |].
    split; [exact I |]. repeat constructor. cbn. lia.
  - cbn [forallb] in Hrest. apply andb_prop in Hrest.
    destruct Hrest as [Hchar Hr].
    destruct (valid_tag_id p Hp) as [pid [Hid Hch]].
    cbn [ranges_loop]. destruct (Ascii.eqb_spec char p) as [-> | Hne].
    + cbn [negb].
      destruct (IH data p (count + 1)) as [pid' [n [tail H]]];
        [lia | assumption | assumption |].
      destruct H as [Hid' [Hrun [Hexp [Htot [Hadj Hall]]]]].
      exists pid', n, tail. rewrite Hrun, Hexp, Htot.
      rewrite repeat_succ_app by assumption. cbn [List.length].
      repeat split; try assumption; try reflexivity. lia.
    + cbn [negb]. rewrite Hid.
      destruct (IH (data ++ [(pid, count)]) char 1)
        as [pid' [n [tail H]]]; [lia | assumption | assumption |].
      destruct H as [Hid' [Hrun [Hexp [Htot [Hadj Hall]]]]].
      exists pid, count, ((pid', n) :: tail).
      rewrite Hrun, <- app_assoc. cbn [app].
      split; [reflexivity |]. split; [reflexivity |].
      assert (Hch' : get_peer_char pid' = Some char).
      { destruct (valid_tag_id char Hchar) as [j [Hj Hcj]]. congruence. }
      split; [| split; [| split]].
      * change (expand_runs get_peer_char ((pid, count) :: (pid', n) :: tail))
          with (match get_peer_char pid,
                      expand_runs get_peer_char ((pid', n) :: tail) with
                | Some c, Some t => Some (repeat c (Z.to_nat count) ++ t)
                | _, _ => None
                end).
        rewrite Hch, Hexp. reflexivity.
      * change (runs_total ((pid, count) :: (pid', n) :: tail))
          with (count + runs_total ((pid', n) :: tail)).
        rewrite Htot. cbn [List.length]. lia.
      * cbn [adjacent_distinct]. split; [| exact Hadj].
        intros <-. congruence.
      * constructor; [cbn; lia | exact Hall].
Qed.

(** C6: on an annotation made of valid tags, [get_client_ranges] returns
    runs whose lengths add up to the length of the annotation, whose
    neighbours carry different peer ids, and which expand back to the
    annotation; every run is at least one character long, and the empty
    annotation gives the empty list.  The server state is not changed. *)
Theorem get_client_ranges_encodes (s : TroopServer) :
  forallb (valid_tag get_peer_char get_peer_id_from_char) (peer_tag_doc s)
  = true ->
  exists data,
    get_client_ranges get_peer_id_from_char s = (Ok data, s) /\
    runs_total data = Z.of_nat (List.length (peer_tag_doc s)) /\
    adjacent_distinct data /\
    expand_runs get_peer_char data = Some (peer_tag_doc s) /\
    Forall (fun run => 1 <= snd run) data /\
    (peer_tag_doc s = [] -> data = []).
Proof.
  intros Hvalid. unfold get_client_ranges, client_ranges.
  destruct (peer_tag_doc s) as [| p rest].
  - exists []. cbn. repeat split; constructor.
  - cbn [forallb] in Hvalid. apply andb_prop in Hvalid.
    destruct Hvalid as [Hp Hrest].
    destruct (ranges_loop_spec rest [] p 1) as [pid [n [tail H]]];
      [lia | assumption | assumption |].
    destruct H as [_ [Hrun [Hexp [Htot [Hadj Hall]]]]].
    exists ((pid, n) :: tail). rewrite Hrun. cbn [app].
    split; [reflexivity |]. split.
    { rewrite Htot. cbn [List.length]. lia. }
    split; [exact Hadj |]. split; [exact Hexp |].
    split; [exact Hall | discriminate].
Qed.

(** ** Authentication *)

Lemma py_range_In (a b n : Z) : In n (py_range a b) <-> a <= n < b.
Proof.
  unfold py_range. rewrite in_map_iff. split.
  - intros [i [<- Hi]]. apply in_seq in Hi. lia.
  - intros H. exists (Z.to_nat (n - a)). split; [lia |].
    apply in_seq. lia.
Qed.

(** Ids of up to four digits, or three digits and a sign, are formatted
    on exactly four characters. *)
Lemma format_04d_width (n : Z) :
  -999 <= n <= 9999 -> String.length (format_04d n) = 4%nat.
Proof.
  intros H.
  assert (Hall : forallb (fun z => Nat.eqb (String.length (format_04d z)) 4)
                   (py_range (-999) 10000) = true) by (vm_compute; reflexivity).
  rewrite forallb_forall in Hall.
  apply Nat.eqb_eq, Hall, py_range_In. lia.
Qed.

Lemma zeros_succ (k : nat) : zeros (S k) = String "0" (zeros k).
Proof using. reflexivity. Qed.

Lemma string_length_app (a b : string) :
  String.length (a ++ b) = (String.length a + String.length b)%nat.
Proof using.
  induction a as [| c a IH]; [reflexivity |].
  cbn [String.append String.length]. now rewrite IH.
Qed.

Lemma length_zeros (k : nat) : String.length (zeros k) = k.
Proof using.
  induction k as [| k IH]; [reflexivity |].
  rewrite zeros_succ. cbn [String.length]. now rewrite IH.
Qed.

(** Leading zeros are read and do not change the number. *)
Lemma uint_of_padded (k : nat) (d : Decimal.uint) :
  exists d',
    NilEmpty.uint_of_string (zeros k ++ NilEmpty.string_of_uint d) = Some d' /\
    N.of_uint d' = N.of_uint d.
Proof using.
  induction k as [| k [d' [Hd' Hv]]].
  - exists d. split; [apply NilEmpty.usu | reflexivity].
  - exists (Decimal.D0 d'). rewrite zeros_succ. cbn [String.append].
    cbn [NilEmpty.uint_of_string]. rewrite Hd'. split; [reflexivity |].
    rewrite <- Hv. reflexivity.
Qed.

Lemma digits_of_N (m : N) :
  NilZero.string_of_uint (N.to_uint m) = NilEmpty.string_of_uint (N.to_uint m)
  /\ exists a r, NilEmpty.string_of_uint (N.to_uint m) = String a r
                 /\ Ascii.eqb a "-" = false.
Proof using.
  assert (Hnil : N.to_uint m <> Decimal.Nil).
  { destruct m as [| p]; [discriminate |]. apply Stdlib.Numbers.DecimalPos.Unsigned.to_uint_nonnil. }
  destruct (N.to_uint m) as [| d | d | d | d | d | d | d | d | d | d];
    try contradiction; (split; [reflexivity |]); cbn;
    eexists; eexists; (split; [reflexivity | reflexivity]).
Qed.

(** The reply reads back as the id that was formatted. *)
Lemma format_04d_reads_back (n : Z) : read_decimal (format_04d n) = Some n.
Proof using.
  unfold format_04d.
  destruct (digits_of_N (Z.abs_N n)) as [Hz [a [r [Hd Ha]]]].
  rewrite Hz.
  set (digits := NilEmpty.string_of_uint (N.to_uint (Z.abs_N n))) in *.
  assert (Hread : forall k,
             NilZero.uint_of_string (zeros k ++ digits)
             = NilEmpty.uint_of_string (zeros k ++ digits)).
  { intros k. destruct k as [| k]; [cbn [zeros repeat string_of_list_ascii
                                           String.append]; now rewrite Hd |].
    now rewrite zeros_succ. }
  assert (Hval : forall k,
             option_map N.of_uint (NilZero.uint_of_string (zeros k ++ digits))
             = Some (Z.abs_N n)).
  { intros k. rewrite Hread. subst digits.
    destruct (uint_of_padded k (N.to_uint (Z.abs_N n))) as [d' [Hd' Hv]].
    rewrite Hd'. cbn [option_map]. rewrite Hv.
    now rewrite Stdlib.Numbers.DecimalN.Unsigned.of_to. }
  destruct (Z.ltb_spec n 0) as [Hneg | Hpos].
  - cbn [String.length String.append]. unfold read_decimal.
    cbn [Ascii.eqb Bool.eqb]. 
    specialize (Hval (4 - 1 - String.length digits)%nat).
    destruct (NilZero.uint_of_string
                (zeros (4 - 1 - String.length digits) ++ digits)) as [d |];
      [| discriminate].
    cbn [option_map] in *. injection Hval as Hval. rewrite Hval.
    f_equal. rewrite N2Z.inj_abs_N. lia.
  - cbn [String.length String.append].
    specialize (Hval (4 - 0 - String.length digits)%nat).
    unfold read_decimal.
    destruct (zeros (4 - 0 - String.length digits) ++ digits)%string
      as [| b t] eqn:Es.
    + cbn in Hval. discriminate.
    + assert (Hb : Ascii.eqb b "-" = false).
      { destruct (4 - 0 - String.length digits)%nat as [| k].
        - cbn [zeros repeat string_of_list_ascii String.append] in Es.
          rewrite Hd in Es. injection Es as <- _. exact Ha.
        - rewrite zeros_succ in Es. cbn [String.append] in Es.
          injection Es as <- _. reflexivity. }
      rewrite Hb.
      destruct (NilZero.uint_of_string (String b t)) as [d |];
        [| discriminate].
      cbn [option_map] in *. injection Hval as Hval. rewrite Hval.
      f_equal. rewrite N2Z.inj_abs_N. lia.
Qed.

(** The reply starts with a minus sign exactly for a negative id. *)
Lemma format_04d_sign (n : Z) :
  String.prefix "-" (format_04d n) = (n <? 0).
Proof using.
  unfold format_04d.
  destruct (digits_of_N (Z.abs_N n)) as [Hz [a [r [Hd Ha]]]].
  rewrite Hz, Hd. destruct (n <? 0); cbn [String.length String.append].
  - cbn [String.prefix]. destruct (Ascii.ascii_dec "-" "-") as [_ | Hne];
      [| now contradiction Hne].
    now destruct (zeros (4 - 1 - S (String.length r)) ++ String a r)%string.
  - destruct (4 - 0 - S (String.length r))%nat as [| k].
    + cbn [zeros repeat string_of_list_ascii String.append String.prefix].
      destruct (Ascii.ascii_dec "-" a) as [<- | Hne];
        [discriminate | reflexivity].
    + rewrite zeros_succ. reflexivity.
Qed.

(** The reply is never shorter than four characters. *)
Lemma format_04d_min_width (n : Z) : (4 <= String.length (format_04d n))%nat.
Proof using.
  unfold format_04d. rewrite !string_length_app, length_zeros. lia.
Qed.

Lemma length_nzhead (d : Decimal.uint) :
  (String.length (NilEmpty.string_of_uint (Decimal.nzhead d))
   <= String.length (NilEmpty.string_of_uint d))%nat.
Proof using.
  induction d; cbn [Decimal.nzhead NilEmpty.string_of_uint String.length];
    try apply Nat.le_refl.
  now apply Nat.le_le_succ_r.
Qed.

(** A numeral that reads as [d] is at least as long as the digits of the
    number it denotes. *)
Lemma length_digits_le (r : string) (d : Decimal.uint) :
  NilZero.uint_of_string r = Some d ->
  (String.length (NilZero.string_of_uint (N.to_uint (N.of_uint d)))
   <= String.length r)%nat.
Proof using.
  intros Hr. rewrite Stdlib.Numbers.DecimalN.Unsigned.to_of.
  destruct r as [| a r]; [discriminate |].
  cbn [NilZero.uint_of_string] in Hr. apply NilEmpty.sus in Hr.
  rewrite <- Hr. pose proof (length_nzhead d) as Hle.
  unfold Decimal.unorm.
  destruct (Decimal.nzhead d) eqn:Ed;
    cbn [NilZero.string_of_uint] in *; try exact Hle.
  rewrite Hr. cbn. lia.
Qed.

(** No shorter text of four characters or more reads back as the id with
    the same sign: together with [format_04d_reads_back],
    [format_04d_sign] and [format_04d_min_width] this fixes the reply. *)
Lemma format_04d_shortest (n : Z) (t : string) :
  read_decimal t = Some n ->
  String.prefix "-" t = (n <? 0) ->
  (4 <= String.length t)%nat ->
  (String.length (format_04d n) <= String.length t)%nat.
Proof using.
  intros Hread Hsign Hlen.
  destruct t as [| a r]; [discriminate |].
  unfold read_decimal in Hread. cbn [String.prefix] in Hsign.
  assert (Hfmt : forall sign : string,
             String.length
               (sign ++ zeros (4 - String.length sign
                               - String.length
                                   (NilZero.string_of_uint
                                      (N.to_uint (Z.abs_N n))))
                ++ NilZero.string_of_uint (N.to_uint (Z.abs_N n)))
             = Nat.max 4 (String.length sign
                          + String.length
                              (NilZero.string_of_uint
                                 (N.to_uint (Z.abs_N n))))%nat).
  { intros sign. rewrite !string_length_app, length_zeros. lia. }
  unfold format_04d. cbv zeta. rewrite Hfmt. clear Hfmt.
  destruct (Ascii.ascii_dec "-" a) as [<- | Hne].
  - cbn [Ascii.eqb Bool.eqb] in Hread. rewrite <- Hsign.
    destruct (NilZero.uint_of_string r) as [d |] eqn:Er; [| discriminate].
    cbn [option_map] in Hread. injection Hread as Hn.
    pose proof (length_digits_le r d Er) as Hle.
    assert (Hm : Z.abs_N n = N.of_uint d).
    { apply N2Z.inj. rewrite N2Z.inj_abs_N. lia. }
    rewrite Hm. destruct (String.prefix "" r); cbn [String.length] in *; lia.
  - assert (Ha : Ascii.eqb a "-" = false).
    { apply Ascii.eqb_neq. congruence. }
    rewrite Ha in Hread. rewrite <- Hsign.
    destruct (NilZero.uint_of_string (String a r)) as [d |] eqn:Er;
      [| discriminate].
    cbn [option_map] in Hread. injection Hread as Hn.
    pose proof (length_digits_le (String a r) d Er) as Hle.
    assert (Hm : Z.abs_N n = N.of_uint d).
    { apply N2Z.inj. rewrite N2Z.inj_abs_N. lia. }
    rewrite Hm. cbn [String.length] in *. lia.
Qed.

Lemma nzhead_not_zero (d e : Decimal.uint) : Decimal.nzhead d <> Decimal.D0 e.
Proof using.
  induction d; cbn [Decimal.nzhead]; try discriminate. exact IHd.
Qed.

Lemma nzhead_split (d : Decimal.uint) :
  exists k,
    d = Nat.iter k Decimal.D0 (Decimal.nzhead d) /\
    String.length (NilEmpty.string_of_uint d)
    = (k + String.length (NilEmpty.string_of_uint (Decimal.nzhead d)))%nat.
Proof using.
  induction d as [| d [k [Hd Hl]] | | | | | | | | |];
    try (exists 0%nat; split; reflexivity).
  exists (S k). cbn [Decimal.nzhead NilEmpty.string_of_uint String.length].
  split; [| now rewrite Hl].
  change (Nat.iter (S k) Decimal.D0 (Decimal.nzhead d))
    with (Decimal.D0 (Nat.iter k Decimal.D0 (Decimal.nzhead d))).
  now rewrite <- Hd.
Qed.

Lemma unorm_cases (d : Decimal.uint) :
  (Decimal.nzhead d = Decimal.Nil /\ Decimal.unorm d = Decimal.D0 Decimal.Nil)
  \/ (Decimal.nzhead d <> Decimal.Nil /\ Decimal.unorm d = Decimal.nzhead d).
Proof using.
  unfold Decimal.unorm.
  destruct (Decimal.nzhead d); [left; split; reflexivity | ..];
    right; split; (discriminate || reflexivity).
Qed.

(** Two numerals of the same length that denote the same number are the
    same numeral. *)
Lemma uint_unique (d1 d2 : Decimal.uint) :
  N.of_uint d1 = N.of_uint d2 ->
  String.length (NilEmpty.string_of_uint d1)
  = String.length (NilEmpty.string_of_uint d2) ->
  d1 = d2.
Proof using.
  intros Hv Hl. apply Stdlib.Numbers.DecimalN.Unsigned.of_iff in Hv.
  destruct (nzhead_split d1) as [k1 [H1 L1]].
  destruct (nzhead_split d2) as [k2 [H2 L2]].
  rewrite L1, L2 in Hl.
  destruct (unorm_cases d1) as [[N1 U1] | [N1 U1]];
    destruct (unorm_cases d2) as [[N2 U2] | [N2 U2]];
    rewrite U1, U2 in Hv.
  - rewrite N1 in H1, Hl. rewrite N2 in H2, Hl.
    assert (Hk : k1 = k2) by lia. congruence.
  - symmetry in Hv. now apply nzhead_not_zero in Hv.
  - now apply nzhead_not_zero in Hv.
  - rewrite Hv in H1, Hl.
    assert (Hk : k1 = k2) by lia. congruence.
Qed.

Lemma uint_of_string_unique (r1 r2 : string) (d1 d2 : Decimal.uint) :
  NilZero.uint_of_string r1 = Some d1 ->
  NilZero.uint_of_string r2 = Some d2 ->
  N.of_uint d1 = N.of_uint d2 ->
  String.length r1 = String.length r2 ->
  r1 = r2.
Proof using.
  intros H1 H2 Hv Hl.
  destruct r1 as [| a1 r1]; [discriminate |].
  destruct r2 as [| a2 r2]; [discriminate |].
  cbn [NilZero.uint_of_string] in H1, H2.
  apply NilEmpty.sus in H1. apply NilEmpty.sus in H2.
  rewrite <- H1, <- H2 in *. f_equal. now apply uint_unique.
Qed.

(** Two texts of the same length that read back as the same number, both
    with or both without a leading minus sign, are the same text. *)
Lemma read_decimal_unique (t1 t2 : string) (n : Z) :
  read_decimal t1 = Some n ->
  read_decimal t2 = Some n ->
  String.prefix "-" t1 = String.prefix "-" t2 ->
  String.length t1 = String.length t2 ->
  t1 = t2.
Proof using.
  intros H1 H2 Hp Hl.
  destruct t1 as [| a1 r1]; [discriminate |].
  destruct t2 as [| a2 r2]; [discriminate |].
  assert (Hpre : forall a r, String.prefix "-" (String a r) = Ascii.eqb a "-").
  { intros a r. cbn [String.prefix].
    destruct (Ascii.ascii_dec "-" a) as [<- | Hne].
    - now destruct r.
    - symmetry. apply Ascii.eqb_neq. congruence. }
  rewrite !Hpre in Hp. unfold read_decimal in H1, H2.
  rewrite <- Hp in H2.
  destruct (Ascii.eqb a1 "-") eqn:E1.
  - apply Ascii.eqb_eq in E1. symmetry in Hp. apply Ascii.eqb_eq in Hp.
    subst a1 a2.
    destruct (NilZero.uint_of_string r1) as [d1 |] eqn:U1; [| discriminate].
    destruct (NilZero.uint_of_string r2) as [d2 |] eqn:U2; [| discriminate].
    cbn [option_map] in H1, H2. injection H1 as H1. injection H2 as H2.
    f_equal. apply (uint_of_string_unique r1 r2 d1 d2 U1 U2).
    + apply N2Z.inj. lia.
    + cbn [String.length] in Hl. lia.
  - destruct (NilZero.uint_of_string (String a1 r1)) as [d1 |] eqn:U1;
      [| discriminate].
    destruct (NilZero.uint_of_string (String a2 r2)) as [d2 |] eqn:U2;
      [| discriminate].
    cbn [option_map] in H1, H2. injection H1 as H1. injection H2 as H2.
    apply (uint_of_string_unique _ _ d1 d2 U1 U2); [| exact Hl].
    apply N2Z.inj. lia.
Qed.

(** The reply is the only text of its length that reads back as the id
    with the sign of the id. *)
Lemma format_04d_unique (n : Z) (t : string) :
  read_decimal t = Some n ->
  String.prefix "-" t = (n <? 0) ->
  String.length t = String.length (format_04d n) ->
  t = format_04d n.
Proof using.
  intros Hr Hp Hl.
  apply (read_decimal_unique t (format_04d n) n Hr
           (format_04d_reads_back n)); [| exact Hl].
  now rewrite format_04d_sign.
Qed.

Lemma get_next_id_total (s : TroopServer) :
  exists nid s1, get_next_id s = (Ok nid, s1).
Proof.
  unfold get_next_id. destruct (last_id s <? max_id s); now eauto.
Qed.

Lemma authenticate_eq (h : TroopRequestHandler) (pw : string)
  (s s1 : TroopServer) (cid : Z) :
  link_up (request h) = true ->
  (if String.eqb pw (password s) then get_next_id else ret (-1)) s
  = (Ok cid, s1) ->
  authenticate link_up h pw s
  = (Ok (with_client_id cid h),
     with_wire (wire s1 ++ [(request h, Raw (format_04d cid))]) s1).
Proof.
  intros Hup Hid. unfold authenticate.
  unfold bind at 1. unfold get_state at 1.
  erewrite bind_ok by exact Hid.
  unfold bind, sendall. cbn [request client_id with_client_id].
  now rewrite Hup.
Qed.

(** C7: a password that differs from the digest of the session secret
    sets the client id to [-1] and puts exactly ["-001"] on the socket; a
    matching password puts on the socket the id that [get_next_id]
    allocates, formatted by ["{:04d}"]: the text reads back in decimal as
    that very id, starts with a minus sign exactly when the id is
    negative, has at least four characters (exactly four for ids from
    -999 to 9999), no text of four characters or more that reads back as
    the id with that sign is shorter, and it is the only text of its
    length that does; and [handle] goes on to its message loop exactly
    when the id it got is not negative. *)
Theorem authenticate_replies (h : TroopRequestHandler) (pw : string)
  (s : TroopServer) :
  link_up (request h) = true ->
  (pw <> password s ->
   authenticate link_up h pw s
   = (Ok (with_client_id (-1) h),
      with_wire (wire s ++ [(request h, Raw "-001"%string)]) s)) /\
  (pw = password s ->
   exists nid s1,
     get_next_id s = (Ok nid, s1) /\
     authenticate link_up h pw s
     = (Ok (with_client_id nid h),
        with_wire (wire s1 ++ [(request h, Raw (format_04d nid))]) s1) /\
     (-999 <= nid <= 9999 -> String.length (format_04d nid) = 4%nat) /\
     read_decimal (format_04d nid) = Some nid /\
     String.prefix "-" (format_04d nid) = (nid <? 0) /\
     (4 <= String.length (format_04d nid))%nat /\
     (forall t, read_decimal t = Some nid ->
                String.prefix "-" t = (nid <? 0) ->
                (4 <= String.length t)%nat ->
                (String.length (format_04d nid) <= String.length t)%nat) /\
     (forall t, read_decimal t = Some nid ->
                String.prefix "-" t = (nid <? 0) ->
                String.length t = String.length (format_04d nid) ->
                t = format_04d nid)) /\
  (forall m rest reads,
      body m = PASSWORD pw ->
      exists h' s',
        authenticate link_up h pw s = (Ok h', s') /\
        not_authenticated link_up h (m :: rest) s
        = (Ok (h', client_id h' <? 0), s') /\
        handle link_up get_peer_id_from_char h (m :: rest) reads s
        = (if client_id h' <? 0 then (Ok tt, s')
           else handle_loop link_up get_peer_id_from_char h' reads s') /\
        ((client_id h' <? 0) = false <-> 0 <= client_id h')).
Proof.
  intros Hup.
  assert (Hno : pw <> password s ->
                authenticate link_up h pw s
                = (Ok (with_client_id (-1) h),
                   with_wire (wire s ++ [(request h, Raw "-001"%string)]) s)).
  { intros Hne. apply (authenticate_eq h pw s s (-1) Hup).
    apply String.eqb_neq in Hne. now rewrite Hne. }
  assert (Hyes : pw = password s ->
                 exists nid s1,
                   get_next_id s = (Ok nid, s1) /\
                   authenticate link_up h pw s
                   = (Ok (with_client_id nid h),
                      with_wire
                        (wire s1 ++ [(request h, Raw (format_04d nid))]) s1)).
  { intros He. destruct (get_next_id_total s) as [nid [s1 Hid]].
    exists nid, s1. split; [exact Hid |].
    apply (authenticate_eq h pw s s1 nid Hup).
    apply String.eqb_eq in He. now rewrite He. }
  split; [exact Hno |]. split.
  { intros He. destruct (Hyes He) as [nid [s1 [Hid Hau]]].
    exists nid, s1. split; [exact Hid |]. split; [exact Hau |].
    split; [apply format_04d_width |].
    split; [apply format_04d_reads_back |].
    split; [apply format_04d_sign |].
    split; [apply format_04d_min_width |].
    split; intros t; [apply format_04d_shortest | apply format_04d_unique]. }
  intros m rest reads Hbody.
  assert (Hauth : exists h' s', authenticate link_up h pw s = (Ok h', s')).
  { destruct (String.eqb_spec pw (password s)) as [He | Hne].
    - destruct (Hyes He) as [nid [s1 [_ Hau]]]. now eauto.
    - now eauto. }
  destruct Hauth as [h' [s' Hau]]. exists h', s'.
  assert (Hnot : not_authenticated link_up h (m :: rest) s
                 = (Ok (h', client_id h' <? 0), s')).
  { unfold not_authenticated. rewrite Hbody.
    erewrite bind_ok by exact Hau. reflexivity. }
  split; [exact Hau |]. split; [exact Hnot |]. split.
  - unfold handle. erewrite bind_ok by exact Hnot.
    now destruct (client_id h' <? 0).
  - apply Z.ltb_ge.
Qed.

End Properties.

(** * Closed instances *)

(** ** Id allocation *)

(** C1 (fails on the code): once [last_id] has reached the maximum the
    allocator should hand out the first id that is not registered and
    answer [-2] only when every id is taken.  Here id 0 is free, the scan
    finds it and stores it in [last_id], and the method still answers
    [-2]. *)
Theorem get_next_id_ignores_free_id :
  max_id registry_with_free_slot - 1 <= last_id registry_with_free_slot /\
  Dict.contains 0 (clients registry_with_free_slot) = false /\
  get_next_id registry_with_free_slot
  = (Ok (-2), with_last_id 0 registry_with_free_slot).
Proof.
  repeat split; try reflexivity. simpl. lia.
Qed.

(** The next request then takes the increment branch from the id the scan
    left in [last_id] and hands out id 1, which peer 1 still holds. *)
Example get_next_id_then_returns_live_id :
  Dict.contains 1 (clients registry_with_free_slot) = true /\
  fst (get_next_id (snd (get_next_id registry_with_free_slot))) = Ok 1.
Proof. split; reflexivity. Qed.

(** ** Joining *)



Lemma connect_from_registered_address_witness :
  is_MSG_CONNECT reconnect_request = true /\
  address_registered (client_address handler_of_peer_1) session = true /\
  handle_connect all_up handler_of_peer_1 reconnect_request session
  = (Ok None, session).
Proof.
  split; [reflexivity |]. split; [reflexivity |].
  exact (proj1 (connect_from_registered_address all_up sample_peer_id
                  handler_of_peer_1 reconnect_request session
                  eq_refl eq_refl)).
Defined.

(** The handler around it still sends the baseline to the three peers and
    empties the revision log. *)
Example reconnect_still_resets :
  let baseline := MSG_RESET (-1) (list_ascii_of_string "hi") [(0, 2)]
                    [(0, 0); (1, 0); (2, 0)] in
  handle_msg all_up sample_peer_id handler_of_peer_1 reconnect_request session
  = (Ok tt,
     with_backend []
       (with_wire [(0%nat, Framed baseline); (1%nat, Framed baseline);
                   (2%nat, Framed baseline)] session)).
Proof. reflexivity. Qed.

(** ** Broadcast *)



(** A message of peer 1 with [reply = 1] is echoed to peer 1. *)
Example respond_echoes_with_reply_1 :
  let echo := Message 1 (Some 1) (RESPONSE "hello") in
  respond all_up echo session
  = (Ok tt,
     with_wire [(0%nat, Framed echo); (1%nat, Framed echo);
                (2%nat, Framed echo)] session).
Proof. reflexivity. Qed.

(** With one dead peer the broadcast does what is asked of it: peer 0 is
    evicted, both survivors are told, and both receive the notice. *)
Example respond_with_one_dead_peer :
  respond (down [0%nat]) server_notice session
  = (Ok tt,
     with_wire [(1%nat, Framed (MSG_REMOVE 0)); (2%nat, Framed (MSG_REMOVE 0));
                (1%nat, Framed server_notice); (2%nat, Framed server_notice)]
       (with_clients [(1, peer 1 1%nat); (2, peer 2 2%nat)] session)).
Proof. reflexivity. Qed.

(** C9 (fails on the code): when the transmission to a client fails, the
    client should be evicted, every survivor told, and the broadcast
    should go on.  Here peers 0 and 1 are both dead and peer 2 is alive.
    Peer 0 is evicted, the notification of that eviction to peer 1 raises
    [DeadClientError] inside the exception handler, and [respond] ends
    there: peer 1 stays registered and peer 2 receives neither the
    notification nor the message. *)
Theorem respond_stops_at_second_dead_peer :
  down [0%nat; 1%nat] (source (peer 2 2%nat)) = true /\
  respond (down [0%nat; 1%nat]) server_notice session
  = (Raise (DeadClientError "10.0.0.1"),
     with_clients [(1, peer 1 1%nat); (2, peer 2 2%nat)] session) /\
  wire (snd (respond (down [0%nat; 1%nat]) server_notice session)) = [].
Proof. repeat split; reflexivity. Qed.

(** ** The acknowledgement barrier *)

Lemma connect_ack_releases_barrier_witness :
  waiting_for_ack pending_session = true /\
  let s' := snd (connect_ack ack_of_peer_1 pending_session) in
  fst (connect_ack ack_of_peer_1 pending_session) = Ok tt /\
  In 1 [0; 1] /\
  clients s' = clients pending_session /\
  (waiting_for_ack s' = false <->
   forall k, In k (Dict.keys (clients s')) -> In k [0; 1]) /\
  (waiting_for_ack s' = false -> acknowledged_clients s' = []) /\
  (waiting_for_ack s' = true -> acknowledged_clients s' = [0; 1]).
Proof.
  split; [reflexivity |].
  exact (connect_ack_releases_barrier ack_of_peer_1 pending_session eq_refl).
Defined.

Lemma barrier_drops_other_messages_witness :
  waiting_for_ack pending_session = true /\
  is_MSG_CONNECT edit = false /\
  handle_msg all_up sample_peer_id handler_of_peer_1 edit pending_session
  = (Ok tt, pending_session).
Proof.
  split; [reflexivity |]. split; [reflexivity |].
  exact (proj1 (barrier_drops_other_messages all_up sample_peer_id
                  handler_of_peer_1 edit pending_session eq_refl eq_refl)
               eq_refl).
Defined.

(** ** The annotation *)

Lemma handle_operation_keeps_lengths_witness :
  sample_peer_char (src_id edit) = Some "b"%char /\
  List.length (peer_tag_doc session) = List.length (document session) /\
  let s' := snd (handle_operation sample_peer_char sample_operation_index
                   no_transform edit session) in
  List.length (peer_tag_doc s') = List.length (document s').
Proof.
  split; [reflexivity |]. split; [reflexivity |].
  exact (proj1 (handle_operation_keeps_lengths sample_peer_char
                  sample_operation_index no_transform edit session
                  "b"%char eq_refl eq_refl)).
Defined.

(** The edit of peer 1 on the sample session: the document becomes
    ["hi!"] and the annotation ["aab"]. *)
Example handle_operation_on_session :
  let s' := snd (handle_operation sample_peer_char sample_operation_index
                   no_transform edit session) in
  document s' = list_ascii_of_string "hi!" /\
  peer_tag_doc s' = list_ascii_of_string "aab" /\
  client_ranges sample_peer_id (peer_tag_doc s') = Ok [(0, 2); (1, 1)].
Proof. repeat split; reflexivity. Qed.

Lemma get_client_ranges_encodes_witness :
  let s := with_peer_tag_doc (list_ascii_of_string "aabccc") session in
  forallb (valid_tag sample_peer_char sample_peer_id) (peer_tag_doc s) = true /\
  exists data,
    get_client_ranges sample_peer_id s = (Ok data, s) /\
    runs_total data = Z.of_nat (List.length (peer_tag_doc s)) /\
    adjacent_distinct data /\
    expand_runs sample_peer_char data = Some (peer_tag_doc s) /\
    Forall (fun run => 1 <= snd run) data /\
    (peer_tag_doc s = [] -> data = []).
Proof.
  split; [reflexivity |].
  exact (get_client_ranges_encodes sample_peer_char sample_peer_id
           (with_peer_tag_doc (list_ascii_of_string "aabccc") session)
           eq_refl).
Defined.

(** ** Authentication *)

Example format_04d_samples :
  format_04d (-1) = "-001"%string /\ format_04d (-2) = "-002"%string /\
  format_04d 0 = "0000"%string /\ format_04d 7 = "0007"%string /\
  format_04d 61 = "0061"%string /\ format_04d 12345 = "12345"%string.
Proof. repeat split; reflexivity. Qed.

(** The first connection with the right password gets id 0. *)
Example authenticate_first_peer :
  authenticate all_up stranger "5f4dcc3b" fresh_server
  = (Ok (with_client_id 0 stranger),
     with_wire [(request stranger, Raw "0000"%string)]
       (with_last_id 0 fresh_server)).
Proof. reflexivity. Qed.

(** The reply of [format_04d] is told apart from its neighbours by
    reading it back. *)
Example format_04d_reads_back_samples :
  map (fun n => read_decimal (format_04d n)) [-1000; -999; -1; 0; 7; 9999; 10000]
  = map Some [-1000; -999; -1; 0; 7; 9999; 10000] /\
  read_decimal "-001" = Some (-1) /\ read_decimal "0012" = Some 12 /\
  read_decimal "12x4" = None /\ read_decimal "" = None.
Proof. repeat split; reflexivity. Qed.

Lemma authenticate_replies_witness :
  all_up (request stranger) = true /\
  ("guess"%string <> password session /\
   authenticate all_up stranger "guess" session
   = (Ok (with_client_id (-1) stranger),
      with_wire [(request stranger, Raw "-001"%string)] session)) /\
  ("5f4dcc3b"%string = password busy_server /\
   authenticate all_up stranger "5f4dcc3b" busy_server
   = (Ok (with_client_id 12 stranger),
      with_wire [(request stranger, Raw "0012"%string)]
        (with_last_id 12 busy_server)) /\
   read_decimal "0012" = Some 12).
Proof.
  split; [reflexivity |]. split.
  - split; [discriminate |].
    apply (proj1 (authenticate_replies all_up sample_peer_id stranger
                    "guess"%string session eq_refl)).
    discriminate.
  - split; [reflexivity |].
    destruct (proj1 (proj2 (authenticate_replies all_up sample_peer_id
                              stranger "5f4dcc3b"%string busy_server
                              eq_refl)) eq_refl)
      as [nid [s1 [Hid [Hau [_ [Hrd _]]]]]].
    vm_compute in Hid. injection Hid as <- <-.
    split; [exact Hau | exact Hrd].
Defined.

(** * Further properties of the server *)

Section MoreProperties.

Variable link_up : sock -> bool.
Variable get_peer_char : Z -> option ascii.
Variable get_peer_id_from_char : ascii -> option Z.
Variable get_operation_index : list op_val -> Z.
Variable transform :
  list op_val -> list op_val -> option (list op_val * list op_val).

(** ** The registry as a dictionary *)

Lemma contains_get (k : Z) (d : Dict.t) :
  Dict.contains k d = true <-> exists c, Dict.get k d = Some c.
Proof using.
  unfold Dict.contains, Dict.get. induction d as [| [k' v] r IH]; cbn.
  - split; [discriminate | intros [c H]; discriminate].
  - destruct (k' =? k); cbn.
    + split; [intros _; now exists v | reflexivity].
    + exact IH.
Qed.

Lemma get_None_contains (k : Z) (d : Dict.t) :
  Dict.get k d = None <-> Dict.contains k d = false.
Proof using.
  unfold Dict.contains, Dict.get. induction d as [| [k' v] r IH]; cbn.
  - split; reflexivity.
  - destruct (k' =? k); cbn.
    + split; discriminate.
    + exact IH.
Qed.

Lemma contains_keys (k : Z) (d : Dict.t) :
  Dict.contains k d = true <-> In k (Dict.keys d).
Proof using.
  unfold Dict.contains, Dict.keys. rewrite existsb_exists, in_map_iff.
  split; intros [kv [H1 H2]]; exists kv.
  - apply Z.eqb_eq in H2. now split.
  - split; [assumption |]. now apply Z.eqb_eq.
Qed.

Lemma keys_del (k : Z) (d : Dict.t) :
  forall j, In j (Dict.keys (Dict.del k d)) <-> In j (Dict.keys d) /\ j <> k.
Proof using.
  intros j. unfold Dict.keys, Dict.del. rewrite !in_map_iff. split.
  - intros [kv [H1 H2]]. apply filter_In in H2. destruct H2 as [H2 H3].
    apply negb_true_iff, Z.eqb_neq in H3. split; [now exists kv | congruence].
  - intros [[kv [H1 H2]] Hne]. exists kv. split; [assumption |].
    apply filter_In. split; [assumption |].
    apply negb_true_iff, Z.eqb_neq. congruence.
Qed.

Lemma contains_del (k : Z) (d : Dict.t) : Dict.contains k (Dict.del k d) = false.
Proof using.
  destruct (Dict.contains k (Dict.del k d)) eqn:E; [| reflexivity].
  apply contains_keys, keys_del in E. now destruct E.
Qed.

Lemma get_del_other (k j : Z) (d : Dict.t) :
  j <> k -> Dict.get j (Dict.del k d) = Dict.get j d.
Proof using.
  intros Hne. unfold Dict.get, Dict.del.
  induction d as [| [k' v] r IH]; cbn; [reflexivity |].
  destruct (Z.eqb_spec k' k) as [-> | Hk]; cbn.
  - destruct (Z.eqb_spec k j); [congruence | exact IH].
  - destruct (k' =? j); [reflexivity | exact IH].
Qed.

Lemma del_absent (k : Z) (d : Dict.t) :
  Dict.contains k d = false -> Dict.del k d = d.
Proof using.
  unfold Dict.contains, Dict.del. induction d as [| [k' v] r IH]; cbn;
    [reflexivity |].
  intros H. apply orb_false_iff in H. destruct H as [H1 H2].
  rewrite H1. cbn. now rewrite IH.
Qed.

Lemma keys_set (k : Z) (v : Client) (d : Dict.t) :
  Dict.keys (Dict.set k v d)
  = if Dict.contains k d then Dict.keys d else Dict.keys d ++ [k].
Proof using.
  unfold Dict.keys, Dict.contains. induction d as [| [k' v'] r IH]; cbn;
    [reflexivity |].
  destruct (Z.eqb_spec k' k) as [-> | Hk]; cbn; [reflexivity |].
  rewrite IH. now destruct (existsb _ r).
Qed.

Lemma get_set_other (k j : Z) (v : Client) (d : Dict.t) :
  j <> k -> Dict.get j (Dict.set k v d) = Dict.get j d.
Proof using.
  intros Hne. unfold Dict.get. induction d as [| [k' v'] r IH]; cbn.
  - destruct (Z.eqb_spec k j); [congruence | reflexivity].
  - destruct (Z.eqb_spec k' k) as [-> | Hk]; cbn.
    + destruct (Z.eqb_spec k j); [congruence | reflexivity].
    + destruct (k' =? j); [reflexivity | exact IH].
Qed.

(** ** Id allocation *)

Lemma py_range_snoc (n : nat) :
  py_range 0 (Z.of_nat (S n)) = py_range 0 (Z.of_nat n) ++ [Z.of_nat n].
Proof using.
  unfold py_range. rewrite !Z.sub_0_r, !Nat2Z.id, seq_S, map_app.
  reflexivity.
Qed.

Lemma scan_step_last_id (s : TroopServer) (n : Z) :
  scan_step s n
  = with_last_id (if Dict.contains n (clients s) then last_id s else n) s.
Proof using.
  unfold scan_step. destruct (Dict.contains n (clients s)); cbn;
    [now destruct s | reflexivity].
Qed.

(** The scan of the ids below [n] leaves in [last_id] the largest id that
    is not registered, and leaves [last_id] alone when there is none. *)
Lemma scan_below (n : nat) (s : TroopServer) :
  exists v,
    fold_left scan_step (py_range 0 (Z.of_nat n)) s = with_last_id v s /\
    ((v = last_id s /\
      forall m, 0 <= m < Z.of_nat n -> Dict.contains m (clients s) = true) \/
     (0 <= v < Z.of_nat n /\ Dict.contains v (clients s) = false /\
      forall m, v < m < Z.of_nat n -> Dict.contains m (clients s) = true)).
Proof using.
  induction n as [| n [v [Hfold Hv]]].
  - exists (last_id s). split; [now destruct s |]. left. split; [reflexivity |].
    intros m Hm. lia.
  - rewrite py_range_snoc, fold_left_app, Hfold. cbn [fold_left].
    rewrite scan_step_last_id. cbn [clients last_id with_last_id].
    destruct (Dict.contains (Z.of_nat n) (clients s)) eqn:E.
    + exists v. split; [reflexivity |].
      destruct Hv as [[-> Hall] | [Hr [Hfree Hall]]].
      * left. split; [reflexivity |]. intros m Hm.
        destruct (Z.eq_dec m (Z.of_nat n)) as [-> | Hne];
          [assumption | apply Hall; lia].
      * right. split; [lia |]. split; [assumption |]. intros m Hm.
        destruct (Z.eq_dec m (Z.of_nat n)) as [-> | Hne];
          [assumption | apply Hall; lia].
    + exists (Z.of_nat n). split; [reflexivity |]. right.
      split; [lia |]. split; [assumption |]. intros m Hm. lia.
Qed.

Lemma py_range_empty (a b : Z) : b <= a -> py_range a b = [].
Proof using.
  intros H. unfold py_range. replace (Z.to_nat (b - a)) with 0%nat by lia.
  reflexivity.
Qed.

Lemma get_next_id_scan (s : TroopServer) :
  max_id s <= last_id s -> 0 <= last_id s ->
  exists v,
    get_next_id s = (Ok (-2), with_last_id v s) /\
    ((v = last_id s /\
      forall m, 0 <= m < last_id s -> Dict.contains m (clients s) = true) \/
     (0 <= v < last_id s /\ Dict.contains v (clients s) = false /\
      forall m, v < m < last_id s -> Dict.contains m (clients s) = true)).
Proof using.
  intros Hmax Hpos. unfold get_next_id.
  replace (last_id s <? max_id s) with false by (symmetry; apply Z.ltb_ge; lia).
  rewrite py_range_empty by assumption. cbn [app].
  destruct (scan_below (Z.to_nat (last_id s)) s) as [v [Hfold Hv]].
  rewrite Z2Nat.id in Hfold, Hv by assumption.
  exists v. now rewrite Hfold.
Qed.

(** X1: in the overflow branch [get_next_id] answers [-2] and changes
    nothing but [last_id], where it leaves the largest id below the old
    [last_id] that is not registered; when every id below it is
    registered the server is left exactly as it was. *)
Theorem get_next_id_overflow_keeps_largest_free (s : TroopServer) :
  max_id s <= last_id s -> 0 <= last_id s ->
  exists v,
    get_next_id s = (Ok (-2), with_last_id v s) /\
    ((v = last_id s /\ get_next_id s = (Ok (-2), s) /\
      forall m, 0 <= m < last_id s -> Dict.contains m (clients s) = true) \/
     (0 <= v < last_id s /\ Dict.contains v (clients s) = false /\
      forall m, v < m < last_id s -> Dict.contains m (clients s) = true)).
Proof using.
  intros Hmax Hpos.
  destruct (get_next_id_scan s Hmax Hpos) as [v [Hrun [[-> Hall] | Hfree]]].
  - exists (last_id s). split; [exact Hrun |]. left.
    split; [reflexivity |]. split; [| exact Hall].
    rewrite Hrun. now destruct s.
  - exists v. split; [exact Hrun |]. now right.
Qed.

Lemma get_next_id_range (s : TroopServer) :
  last_id_ok s ->
  exists r v,
    get_next_id s = (Ok r, with_last_id v s) /\
    -1 <= v <= max_id s /\
    (r = -2 \/ (0 <= r <= max_id s /\ v = r)).
Proof using.
  intros [Hlo Hhi]. destruct (Z.lt_ge_cases (last_id s) (max_id s)) as [H | H].
  - exists (last_id s + 1), (last_id s + 1).
    rewrite get_next_id_increment by assumption.
    split; [reflexivity |]. split; [lia |]. right. lia.
  - destruct (Z.eq_dec (last_id s) (-1)) as [Hm | Hm].
    + exists (-2), (last_id s). unfold get_next_id.
      replace (last_id s <? max_id s) with false
        by (symmetry; apply Z.ltb_ge; lia).
      rewrite py_range_empty by assumption.
      rewrite (py_range_empty 0 (last_id s)) by lia. cbn.
      split; [now destruct s |]. split; [lia | now left].
    + destruct (get_next_id_scan s) as [v [Hrun Hv]]; [lia | lia |].
      exists (-2), v. split; [exact Hrun |]. split; [| now left].
      destruct Hv as [[-> _] | [Hr _]]; lia.
Qed.

(** X2: while [last_id] is within its bounds, [get_next_id] answers [-2]
    or an id between 0 and [max_id], changes nothing but [last_id], and
    keeps [last_id] within its bounds. *)
Theorem get_next_id_within_bounds (s : TroopServer) :
  last_id_ok s ->
  exists r v,
    get_next_id s = (Ok r, with_last_id v s) /\
    last_id_ok (with_last_id v s) /\
    (r = -2 \/ (0 <= r <= max_id s /\ v = r)).
Proof using.
  intros H. destruct (get_next_id_range s H) as [r [v [Hrun [Hv Hr]]]].
  exists r, v. split; [exact Hrun |]. split; [exact Hv | exact Hr].
Qed.

Lemma allocate_from (n : nat) :
  forall s,
    last_id s + Z.of_nat n <= max_id s ->
    allocate n s = map (fun i => Ok (last_id s + 1 + Z.of_nat i)) (seq 0 n).
Proof using.
  induction n as [| n IH]; intros s H; [reflexivity |].
  cbn [allocate]. rewrite get_next_id_increment by lia.
  cbn [fst snd seq map]. f_equal; [f_equal; lia |].
  rewrite IH by (cbn [last_id max_id with_last_id]; lia).
  rewrite <- seq_shift, map_map. apply map_ext. intros i.
  cbn [last_id with_last_id]. f_equal. lia.
Qed.

(** X3: on a server whose allocator has not been used, the first
    [max_id + 1] calls of [get_next_id] answer 0, 1, 2, ... in order,
    whatever the registry holds. *)
Theorem get_next_id_counts_up (n : nat) (s : TroopServer) :
  last_id s = -1 ->
  Z.of_nat n <= max_id s + 1 ->
  allocate n s = map (fun i => Ok (Z.of_nat i)) (seq 0 n).
Proof using.
  intros H0 Hn. rewrite allocate_from by lia.
  apply map_ext. intros i. f_equal. lia.
Qed.

(** ** The authentication reply *)

(** X4: with [last_id] within its bounds and at most 10000 ids, every
    authentication attempt, whether the password is right or wrong, puts
    exactly four characters on the socket: the id the handler keeps,
    formatted by ["{:04d}"], and that id is [-1], [-2] or an id between 0
    and [max_id].  The four characters read back in decimal as that id,
    start with a minus sign exactly when it is negative, and are the only
    four characters that do. *)
Theorem authenticate_reply_has_four_characters (h : TroopRequestHandler)
  (pw : string) (s : TroopServer) :
  link_up (request h) = true ->
  last_id_ok s ->
  max_id s <= 9999 ->
  exists cid s1,
    authenticate link_up h pw s
    = (Ok (with_client_id cid h),
       with_wire (wire s1 ++ [(request h, Raw (format_04d cid))]) s1) /\
    wire s1 = wire s /\
    String.length (format_04d cid) = 4%nat /\
    (cid = -1 \/ cid = -2 \/ 0 <= cid <= max_id s) /\
    (cid = -1 <-> pw <> password s) /\
    read_decimal (format_04d cid) = Some cid /\
    String.prefix "-" (format_04d cid) = (cid <? 0) /\
    (forall t, String.length t = 4%nat ->
               read_decimal t = Some cid ->
               String.prefix "-" t = (cid <? 0) ->
               t = format_04d cid).
Proof using.
  intros Hup Hok Hmax.
  assert (Hpin : forall cid,
             String.length (format_04d cid) = 4%nat ->
             read_decimal (format_04d cid) = Some cid /\
             String.prefix "-" (format_04d cid) = (cid <? 0) /\
             (forall t, String.length t = 4%nat ->
                        read_decimal t = Some cid ->
                        String.prefix "-" t = (cid <? 0) ->
                        t = format_04d cid)).
  { intros cid Hw. split; [apply format_04d_reads_back |].
    split; [apply format_04d_sign |].
    intros t Hl Hr Hp. apply format_04d_unique; [exact Hr | exact Hp |].
    now rewrite Hw. }
  destruct (String.eqb_spec pw (password s)) as [He | Hne].
  - destruct (get_next_id_range s Hok) as [r [v [Hrun [Hv Hr]]]].
    exists r, (with_last_id v s). split.
    { apply authenticate_eq; [assumption |].
      apply String.eqb_eq in He. now rewrite He. }
    assert (Hw : String.length (format_04d r) = 4%nat)
      by (apply format_04d_width; lia).
    split; [reflexivity |]. split; [exact Hw |].
    split; [destruct Hr as [-> | [Hr _]]; [right; now left | right; now right] |].
    split; [| exact (Hpin r Hw)].
    split; [intros ->; lia | intros Hn; contradiction].
  - exists (-1), s. split.
    { apply authenticate_eq; [assumption |].
      apply String.eqb_neq in Hne. now rewrite Hne. }
    split; [reflexivity |]. split; [reflexivity |].
    split; [now left |]. split; [| exact (Hpin (-1) eq_refl)].
    split; [intros _; assumption | reflexivity].
Qed.

(** ** The acknowledgement barrier over a packet *)

Lemma connect_ack_cases (msg : message) (s : TroopServer) :
  let acks := acknowledged_clients s ++ [src_id msg] in
  ((forall k, In k (Dict.keys (clients s)) -> In k acks) /\
   connect_ack msg s
   = (Ok tt, with_acknowledged_clients []
               (with_waiting_for_ack false
                  (with_acknowledged_clients acks s)))) \/
  (~ (forall k, In k (Dict.keys (clients s)) -> In k acks) /\
   connect_ack msg s = (Ok tt, with_acknowledged_clients acks s)).
Proof using.
  intros acks. unfold connect_ack.
  cbn [acknowledged_clients clients with_acknowledged_clients]. fold acks.
  destruct (forallb (acked acks) (Dict.keys (clients s))) eqn:E.
  - left. split; [| reflexivity]. intros k Hk.
    rewrite forallb_forall in E. now apply acked_In, E.
  - right. split; [| reflexivity]. intros Hall.
    assert (forallb (acked acks) (Dict.keys (clients s)) = true); [| congruence].
    apply forallb_forall. intros k Hk. now apply acked_In, Hall.
Qed.

(** Once no join is pending, a packet without [MSG_CONNECT] is appended
    to the dispatch queue, in order, and nothing else changes. *)
Lemma handle_packet_enqueues (h : TroopRequestHandler) (pkt : list message) :
  forall s,
    waiting_for_ack s = false ->
    Forall (fun m => is_MSG_CONNECT m = false) pkt ->
    handle_packet link_up get_peer_id_from_char h pkt s
    = (Ok tt, with_msg_queue (msg_queue s ++ pkt) s).
Proof using.
  unfold handle_packet. induction pkt as [| m r IH]; intros s Hw Hall.
  - cbn. rewrite app_nil_r. now destruct s.
  - inversion Hall as [| m' r' Hm Hr]; subst. cbn [for_each].
    erewrite bind_ok.
    2:{ unfold handle_msg. rewrite Hm. unfold bind, get_state.
        rewrite Hw. reflexivity. }
    rewrite IH by assumption. cbn [msg_queue with_msg_queue].
    rewrite <- app_assoc. reflexivity.
Qed.

Lemma handle_packet_acks (h : TroopRequestHandler) (pkt : list message) :
  forall s,
    waiting_for_ack s = true ->
    Forall (fun m => is_MSG_CONNECT_ACK m = true) pkt ->
    let s' := snd (handle_packet link_up get_peer_id_from_char h pkt s) in
    fst (handle_packet link_up get_peer_id_from_char h pkt s) = Ok tt /\
    clients s' = clients s /\
    ((waiting_for_ack s' = true /\
      acknowledged_clients s' = acknowledged_clients s ++ authors pkt /\
      msg_queue s' = msg_queue s /\
      (pkt = [] \/
       ~ (forall k, In k (Dict.keys (clients s)) ->
                    In k (acknowledged_clients s ++ authors pkt)))) \/
     (waiting_for_ack s' = false /\
      acknowledged_clients s' = [] /\
      exists p m q,
        pkt = p ++ m :: q /\
        msg_queue s' = msg_queue s ++ q /\
        (forall k, In k (Dict.keys (clients s)) ->
                   In k (acknowledged_clients s ++ authors (p ++ [m]))) /\
        (p = [] \/
         ~ (forall k, In k (Dict.keys (clients s)) ->
                      In k (acknowledged_clients s ++ authors p))))).
Proof using.
  unfold handle_packet. induction pkt as [| m r IH]; intros s Hw Hall.
  - cbn. split; [reflexivity |]. split; [reflexivity |]. left.
    rewrite app_nil_r. repeat split; try assumption. now left.
  - inversion Hall as [| m' r' Hm Hr]; subst. cbn [for_each].
    assert (Hstep : handle_msg link_up get_peer_id_from_char h m s
                    = connect_ack m s).
    { unfold handle_msg.
      assert (Hc : is_MSG_CONNECT m = false).
      { unfold is_MSG_CONNECT_ACK in Hm. unfold is_MSG_CONNECT.
        destruct (body m); try discriminate; reflexivity. }
      rewrite Hc. unfold bind, get_state. now rewrite Hw, Hm. }
    destruct (connect_ack_cases m s) as [[Hall' Hrun] | [Hnot Hrun]].
    + (* the barrier goes down at [m]: the rest is queued *)
      erewrite bind_ok by (rewrite Hstep; exact Hrun).
      assert (Hrest : Forall (fun m0 => is_MSG_CONNECT m0 = false) r).
      { eapply Forall_impl; [| exact Hr]. intros a Ha.
        unfold is_MSG_CONNECT_ACK in Ha. unfold is_MSG_CONNECT.
        destruct (body a); try discriminate; reflexivity. }
      pose proof (handle_packet_enqueues h r
                    (with_acknowledged_clients []
                       (with_waiting_for_ack false
                          (with_acknowledged_clients
                             (acknowledged_clients s ++ [src_id m]) s)))
                    eq_refl Hrest) as Hq.
      unfold handle_packet in Hq. rewrite Hq. cbn.
      split; [reflexivity |]. split; [reflexivity |]. right.
      split; [reflexivity |]. split; [reflexivity |].
      exists [], m, r. cbn [app authors map].
      split; [reflexivity |]. split; [reflexivity |].
      split; [exact Hall' | now left].
    + erewrite bind_ok by (rewrite Hstep; exact Hrun).
      destruct (IH (with_acknowledged_clients
                      (acknowledged_clients s ++ [src_id m]) s) Hw Hr)
        as [Hok [Hcl Hcases]].
      cbn [clients acknowledged_clients msg_queue with_acknowledged_clients]
        in Hcl, Hcases.
      split; [exact Hok |]. split; [exact Hcl |].
      destruct Hcases as [[Hw' [Hacks [Hq Hno]]] | [Hw' [Hacks [p [m' [q H]]]]]].
      * left. split; [exact Hw' |]. cbn [authors map].
        rewrite <- app_assoc in Hacks. cbn [app] in Hacks.
        split; [exact Hacks |]. split; [exact Hq |]. right.
        destruct Hno as [-> | Hno]; [exact Hnot |].
        rewrite <- app_assoc in Hno. exact Hno.
      * right. split; [exact Hw' |]. split; [exact Hacks |].
        destruct H as [-> [Hq [Hsub Hfirst]]].
        exists (m :: p), m', q. split; [reflexivity |]. split; [exact Hq |].
        split.
        { intros k Hk. specialize (Hsub k Hk).
          rewrite <- app_assoc in Hsub. exact Hsub. }
        right. destruct Hfirst as [-> | Hfirst]; [exact Hnot |].
        rewrite <- app_assoc in Hfirst. exact Hfirst.
Qed.

(** X5: while a join is pending, a packet of acknowledgements brings the
    barrier down exactly when it is not empty and every registered id is
    among the ids already acknowledged and the authors of the packet.  The
    registry is not touched.  While the barrier holds nothing is queued and
    the authors of the whole packet are recorded.  When the barrier goes
    down, it does so at the first acknowledgement [m] of the packet after
    which every registered id is acknowledged: the acknowledgements [p]
    before it did not suffice, the record of acknowledgements is cleared,
    and exactly the acknowledgements [q] that follow [m] are put on the
    dispatch queue, in order. *)
Theorem acknowledgements_release_barrier (h : TroopRequestHandler)
  (pkt : list message) (s : TroopServer) :
  waiting_for_ack s = true ->
  Forall (fun m => is_MSG_CONNECT_ACK m = true) pkt ->
  let s' := snd (handle_packet link_up get_peer_id_from_char h pkt s) in
  let complete (acks : list Z) :=
    forall k, In k (Dict.keys (clients s)) -> In k acks in
  fst (handle_packet link_up get_peer_id_from_char h pkt s) = Ok tt /\
  clients s' = clients s /\
  (waiting_for_ack s' = false <->
   pkt <> [] /\
   forall k, In k (Dict.keys (clients s)) ->
             In k (acknowledged_clients s ++ authors pkt)) /\
  (waiting_for_ack s' = true ->
   msg_queue s' = msg_queue s /\
   acknowledged_clients s' = acknowledged_clients s ++ authors pkt) /\
  (waiting_for_ack s' = false ->
   acknowledged_clients s' = [] /\
   exists p m q,
     pkt = p ++ m :: q /\
     (p = [] \/ ~ complete (acknowledged_clients s ++ authors p)) /\
     complete (acknowledged_clients s ++ authors p ++ [src_id m]) /\
     msg_queue s' = msg_queue s ++ q).
Proof using.
  intros Hw Hall s' complete.
  destruct (handle_packet_acks h pkt s Hw Hall) as [Hok [Hcl Hcases]].
  fold s' in Hcl, Hcases. split; [exact Hok |]. split; [exact Hcl |].
  destruct Hcases as [[Hw' [Hacks [Hq Hno]]] | [Hw' [Hacks [p [m [q H]]]]]].
  - split; [| split].
    + rewrite Hw'. split; [discriminate |]. intros [Hne Hsub].
      destruct Hno as [-> | Hno]; contradiction.
    + intros _. split; [exact Hq | exact Hacks].
    + rewrite Hw'. discriminate.
  - destruct H as [Hpkt [Hq [Hsub Hfirst]]].
    assert (Hsub' : complete (acknowledged_clients s ++ authors p ++ [src_id m])).
    { intros k Hk. specialize (Hsub k Hk).
      unfold authors in *. rewrite map_app in Hsub. exact Hsub. }
    split; [| split].
    + split; [| intros _; exact Hw']. intros _. split.
      * rewrite Hpkt. now destruct p.
      * intros k Hk. specialize (Hsub k Hk). apply in_app_or in Hsub.
        apply in_or_app. destruct Hsub as [H1 | H2]; [now left | right].
        rewrite Hpkt. unfold authors in *. rewrite map_app in *.
        apply in_app_or in H2. apply in_or_app.
        destruct H2 as [H2 | H2]; [now left | right].
        cbn in H2. destruct H2 as [<- | []]. now left.
    + rewrite Hw'. discriminate.
    + intros _. split; [exact Hacks |].
      exists p, m, q. split; [exact Hpkt |]. split; [exact Hfirst |].
      split; [exact Hsub' | exact Hq].
Qed.

(** ** Eviction *)

Lemma for_each_app {A} (xs ys : list A) (body : A -> M unit) (s : TroopServer) :
  for_each (xs ++ ys) body s
  = bind (for_each xs body) (fun _ => for_each ys body) s.
Proof using.
  revert s. induction xs as [| x r IH]; intros s; cbn [app for_each].
  - reflexivity.
  - unfold bind. destruct (body x s) as [[[] | e] s1]; [| reflexivity].
    rewrite IH. reflexivity.
Qed.

(** A broadcast stops at the first client that cannot be reached. *)
Lemma broadcast_stops (msg : message) (pre post : list Client) (c : Client)
  (s : TroopServer) :
  reachable link_up pre = true ->
  link_up (source c) = false ->
  for_each (pre ++ c :: post) (fun x => send link_up x msg) s
  = (Raise (DeadClientError (hostname c)),
     with_wire (wire s ++ deliveries msg pre) s).
Proof using.
  intros Hpre Hc. rewrite for_each_app.
  erewrite bind_ok by (now apply broadcast_reachable).
  cbn [for_each]. erewrite bind_raise by (now apply send_down).
  reflexivity.
Qed.

Lemma unreachable_split (cs : list Client) :
  reachable link_up cs = false ->
  exists pre c post,
    cs = pre ++ c :: post /\ reachable link_up pre = true /\
    link_up (source c) = false.
Proof using.
  induction cs as [| x r IH]; [discriminate |]. cbn. intros H.
  destruct (link_up (source x)) eqn:E.
  - cbn in H. destruct (IH H) as [pre [c [post [-> [Hpre Hc]]]]].
    exists (x :: pre), c, post. split; [reflexivity |].
    split; [| assumption]. unfold reachable in *. cbn. now rewrite E.
  - exists [], x, r. now repeat split.
Qed.

Lemma remove_client_state (cid : Z) (s : TroopServer) :
  remove_client link_up cid s
  = for_each (Dict.values (Dict.del cid (clients s)))
      (fun x => send link_up x (MSG_REMOVE cid))
      (with_clients (Dict.del cid (clients s)) s).
Proof using.
  unfold remove_client, bind, modify, get_state.
  destruct (Dict.contains cid (clients s)) eqn:E; [reflexivity |].
  rewrite (del_absent cid (clients s) E). now rewrite with_clients_same.
Qed.

(** X6: whatever happens to its notifications, [remove_client] leaves a
    registry that no longer holds the id and still holds every other
    client, and changes nothing else but the wire; afterwards [get_client]
    raises [KeyError] for that id.  When every remaining client can be
    reached, each of them receives one [MSG_REMOVE] and the call returns;
    when one cannot, the call raises [DeadClientError] at the first such
    client, and those after it are not notified. *)
Theorem remove_client_unregisters (cid : Z) (s : TroopServer) :
  let rest := Dict.del cid (clients s) in
  let s' := snd (remove_client link_up cid s) in
  (exists w, s' = with_wire w (with_clients rest s)) /\
  Dict.contains cid (clients s') = false /\
  (forall k, k <> cid -> Dict.get k (clients s') = Dict.get k (clients s)) /\
  get_client cid s' = (Raise KeyError, s') /\
  (reachable link_up (Dict.values rest) = true ->
   remove_client link_up cid s
   = (Ok tt,
      with_wire (wire s ++ deliveries (MSG_REMOVE cid) (Dict.values rest))
        (with_clients rest s))) /\
  (forall pre c post,
      Dict.values rest = pre ++ c :: post ->
      reachable link_up pre = true ->
      link_up (source c) = false ->
      remove_client link_up cid s
      = (Raise (DeadClientError (hostname c)),
         with_wire (wire s ++ deliveries (MSG_REMOVE cid) pre)
           (with_clients rest s))).
Proof using.
  intros rest s'.
  assert (Hframe : exists w, s' = with_wire w (with_clients rest s)).
  { subst s'. rewrite remove_client_state. apply broadcast_frame. }
  destruct Hframe as [w Hw].
  split; [now exists w |]. rewrite Hw. cbn [clients with_wire with_clients].
  split; [apply contains_del |].
  split; [intros k Hk; now apply get_del_other |].
  split.
  { unfold get_client. cbn [clients with_wire with_clients].
    replace (Dict.get cid rest) with (@None Client); [reflexivity |].
    symmetry. apply get_None_contains, contains_del. }
  split.
  - intros Hr. rewrite remove_client_state.
    rewrite broadcast_reachable by assumption. reflexivity.
  - intros pre c post Hsplit Hpre Hc. rewrite remove_client_state.
    fold rest. rewrite Hsplit.
    rewrite broadcast_stops by assumption. reflexivity.
Qed.

(** ** Broadcast with one dead peer *)

Lemma registry_split (k : Z) (c : Client) (d : Dict.t) :
  NoDup (Dict.keys d) ->
  Dict.get k d = Some c ->
  exists d1 d2,
    d = d1 ++ (k, c) :: d2 /\ Dict.del k d = d1 ++ d2.
Proof using.
  unfold Dict.get, Dict.del, Dict.keys.
  induction d as [| [k' v] r IH]; cbn; [discriminate |].
  intros Hnd Hget. inversion Hnd as [| k0 ks Hnotin Hnd']; subst.
  destruct (Z.eqb_spec k' k) as [-> | Hne]; cbn in *.
  - injection Hget as <-. exists [], r. split; [reflexivity |]. cbn.
    f_equal. apply del_absent.
    destruct (Dict.contains k r) eqn:E; [| reflexivity].
    apply contains_keys in E. contradiction.
  - destruct (IH Hnd' Hget) as [d1 [d2 [-> Hdel]]].
    exists ((k', v) :: d1), d2. split; [reflexivity |]. cbn.
    now rewrite Hdel.
Qed.

(** X7: in a registry whose keys are the ids of its clients, without
    repetition, when exactly one client cannot be reached and the guard
    lets the message through to it, [respond] returns normally: the
    clients before it receive the message, the dead client is removed,
    every survivor receives one [MSG_REMOVE] for it, and the clients after
    it receive the message. *)
Theorem respond_evicts_single_dead_peer (msg : message) (c : Client)
  (s : TroopServer) :
  registry_ok (clients s) ->
  Dict.get (id c) (clients s) = Some c ->
  link_up (source c) = false ->
  should_send c msg = true ->
  reachable link_up (Dict.values (Dict.del (id c) (clients s))) = true ->
  exists pre post,
    Dict.values (clients s) = pre ++ c :: post /\
    Dict.values (Dict.del (id c) (clients s)) = pre ++ post /\
    respond link_up msg s
    = (Ok tt,
       with_wire
         (wire s
          ++ deliveries msg (filter (fun x => should_send x msg) pre)
          ++ deliveries (MSG_REMOVE (id c)) (pre ++ post)
          ++ deliveries msg (filter (fun x => should_send x msg) post))
         (with_clients (Dict.del (id c) (clients s)) s)).
Proof using.
  intros [Hnd _] Hget Hdown Hguard Hrest.
  destruct (registry_split (id c) c (clients s) Hnd Hget)
    as [d1 [d2 [Hd Hdel]]].
  exists (Dict.values d1), (Dict.values d2).
  assert (Hvals : Dict.values (clients s)
                  = Dict.values d1 ++ c :: Dict.values d2).
  { rewrite Hd. unfold Dict.values. now rewrite map_app. }
  assert (Hvals' : Dict.values (Dict.del (id c) (clients s))
                   = Dict.values d1 ++ Dict.values d2).
  { rewrite Hdel. unfold Dict.values. now rewrite map_app. }
  split; [exact Hvals |]. split; [exact Hvals' |].
  assert (Hpre : reachable link_up (Dict.values d1) = true
                 /\ reachable link_up (Dict.values d2) = true).
  { rewrite Hvals' in Hrest. unfold reachable in *.
    rewrite forallb_app in Hrest. now apply andb_prop in Hrest. }
  destruct Hpre as [Hpre Hpost].
  unfold respond. erewrite bind_ok by reflexivity.
  rewrite Hvals, for_each_app.
  erewrite bind_ok by (now apply respond_loop_reachable).
  cbn [for_each]. erewrite bind_ok.
  2:{ unfold try_dead. rewrite Hguard. rewrite send_down by assumption.
      rewrite remove_client_state. cbn [clients with_wire].
      rewrite broadcast_reachable by assumption. reflexivity. }
  rewrite respond_loop_reachable by assumption.
  cbn [wire with_wire with_clients clients]. rewrite Hvals'.
  rewrite <- !app_assoc. reflexivity.
Qed.

(** ** Shutdown *)

(** X8: when every client can be reached, [kill] sends the warning to
    each of them and clears [running]; from then on a handler loop and the
    dispatch loop return at once, without reading or dispatching anything
    more.  When a client cannot be reached, [kill] raises
    [DeadClientError] at the first such client and [running] stays as it
    was. *)
Theorem kill_stops_the_loops (s : TroopServer) :
  (reachable link_up (Dict.values (clients s)) = true ->
   let s' := with_running false
               (with_wire (wire s ++ deliveries (MSG_KILL (-1) kill_warning)
                                       (Dict.values (clients s))) s) in
   kill link_up s = (Ok tt, s') /\
   (forall h reads,
       handle_loop link_up get_peer_id_from_char h reads s' = (Ok tt, s')) /\
   (forall rounds,
       update_send link_up get_peer_char get_operation_index transform
         rounds s' = (Ok tt, s'))) /\
  (forall pre c post,
      Dict.values (clients s) = pre ++ c :: post ->
      reachable link_up pre = true ->
      link_up (source c) = false ->
      kill link_up s
      = (Raise (DeadClientError (hostname c)),
         with_wire (wire s ++ deliveries (MSG_KILL (-1) kill_warning) pre) s)).
Proof using.
  split.
  - intros Hr s'. split; [| split].
    + unfold kill. erewrite bind_ok by reflexivity.
      erewrite bind_ok by (now apply broadcast_reachable). reflexivity.
    + intros h [| rd rest]; reflexivity.
    + intros [| n]; reflexivity.
  - intros pre c post Hsplit Hpre Hc. unfold kill.
    erewrite bind_ok by reflexivity. rewrite Hsplit.
    erewrite bind_raise by (now apply broadcast_stops). reflexivity.
Qed.

(** ** When the annotation can be encoded *)

Lemma runs_total_cons (pid n : Z) (tail : list (Z * Z)) :
  runs_total ((pid, n) :: tail) = n + runs_total tail.
Proof using. reflexivity. Qed.

Lemma ranges_loop_defined (rest : text) :
  forall (data : list (Z * Z)) (p : ascii) (count : Z),
    1 <= count ->
    (has_peer_id get_peer_id_from_char p
     && forallb (has_peer_id get_peer_id_from_char) rest = true ->
     exists tail,
       ranges_loop get_peer_id_from_char rest data p count
       = Ok (data ++ tail) /\
       runs_total tail = count + Z.of_nat (List.length rest) /\
       (1 <= List.length tail <= 1 + List.length rest)%nat) /\
    (has_peer_id get_peer_id_from_char p
     && forallb (has_peer_id get_peer_id_from_char) rest = false ->
     ranges_loop get_peer_id_from_char rest data p count = Raise ValueError).
Proof using.
  induction rest as [| char r IH]; intros data p count Hcount;
    cbn [ranges_loop forallb].
  - replace (0 <? count) with true by (symmetry; apply Z.ltb_lt; lia).
    unfold has_peer_id. destruct (get_peer_id_from_char p) as [pid |]; cbn.
    + split; [| discriminate]. intros _. exists [(pid, count)].
      split; [reflexivity |]. cbn. split; lia.
    + split; [discriminate | reflexivity].
  - destruct (Ascii.eqb_spec char p) as [-> | Hne]; cbn [negb].
    + destruct (IH data p (count + 1)) as [Hyes Hno]; [lia |].
      assert (Hdup : forall b c : bool, b && (b && c) = b && c)
        by (intros [] []; reflexivity).
      rewrite Hdup. split.
      * intros H. destruct (Hyes H) as [tail [Hrun [Htot Hlen]]].
        exists tail. split; [exact Hrun |]. cbn [List.length].
        split; lia.
      * exact Hno.
    + destruct (get_peer_id_from_char p) as [pid |] eqn:Ep.
      * assert (Hp : has_peer_id get_peer_id_from_char p = true)
          by (unfold has_peer_id; now rewrite Ep).
        rewrite Hp. cbn [andb].
        destruct (IH (data ++ [(pid, count)]) char 1) as [Hyes Hno]; [lia |].
        split.
        -- intros H. destruct (Hyes H) as [tail [Hrun [Htot Hlen]]].
           exists ((pid, count) :: tail). rewrite Hrun, <- app_assoc.
           split; [reflexivity |]. rewrite runs_total_cons, Htot.
           cbn [List.length]. split; lia.
        -- exact Hno.
      * assert (Hp : has_peer_id get_peer_id_from_char p = false)
          by (unfold has_peer_id; now rewrite Ep).
        rewrite Hp. cbn [andb]. split; [discriminate | reflexivity].
Qed.

(** X9: [get_client_ranges] returns exactly when [get_peer_id_from_char]
    answers for every character of the annotation, and raises
    [ValueError] otherwise; it never changes the server.  The runs it
    returns add up to the length of the annotation, and there are no more
    runs than characters. *)
Theorem get_client_ranges_defined (s : TroopServer) :
  (forallb (has_peer_id get_peer_id_from_char) (peer_tag_doc s) = true ->
   exists data,
     get_client_ranges get_peer_id_from_char s = (Ok data, s) /\
     runs_total data = Z.of_nat (List.length (peer_tag_doc s)) /\
     (List.length data <= List.length (peer_tag_doc s))%nat) /\
  (forallb (has_peer_id get_peer_id_from_char) (peer_tag_doc s) = false ->
   get_client_ranges get_peer_id_from_char s = (Raise ValueError, s)).
Proof using.
  unfold get_client_ranges, client_ranges.
  destruct (peer_tag_doc s) as [| p rest].
  - split; [| discriminate]. intros _. exists []. now repeat split.
  - cbn [forallb].
    destruct (ranges_loop_defined rest [] p 1) as [Hyes Hno]; [lia |]. split.
    + intros H. destruct (Hyes H) as [tail [Hrun [Htot Hlen]]].
      exists tail. rewrite Hrun. cbn [app List.length].
      split; [reflexivity |]. split; lia.
    + intros H. now rewrite (Hno H).
Qed.

(** ** Dispatching an edit *)

Lemma get_In (k : Z) (c : Client) (d : Dict.t) :
  Dict.get k d = Some c -> In c (Dict.values d).
Proof using.
  unfold Dict.get, Dict.values. induction d as [| [k' v] r IH]; cbn;
    [discriminate |].
  destruct (k' =? k); cbn.
  - intros H. injection H as <-. now left.
  - intros H. right. now apply IH.
Qed.

Lemma reachable_In (cs : list Client) (c : Client) :
  reachable link_up cs = true -> In c cs -> link_up (source c) = true.
Proof using.
  unfold reachable. rewrite forallb_forall. intros H Hin. now apply H.
Qed.

Lemma receive_operation_accepts (user revision : Z) (op op' : list op_val)
  (s s1 : TroopServer) :
  receive_operation transform user revision op s = (Ok op', s1) ->
  exists d,
    apply_ops op' (document s) = Some d /\
    s1 = with_backend (backend s ++ [op']) (with_document d s).
Proof using.
  intros H.
  destruct (receive_operation_cases transform user revision op s)
    as [[e He] | [op2 [d [Hd Hrun]]]].
  - rewrite He in H. discriminate.
  - rewrite Hrun in H. injection H as <- <-. now exists d.
Qed.

(** What [handle_operation] does with an edit that the transform engine
    accepts, by whether the author is registered. *)
Lemma handle_operation_outcome (msg : message) (s s1 : TroopServer)
  (tag : ascii) (revision : Z) (operation op' : list op_val) (tags : text) :
  body msg = OPERATION revision operation ->
  get_peer_char (src_id msg) = Some tag ->
  receive_operation transform (src_id msg) revision operation s
  = (Ok op', s1) ->
  apply_ops (annotation_op tag op') (peer_tag_doc s1) = Some tags ->
  handle_operation get_peer_char get_operation_index transform msg s
  = match Dict.get (src_id msg) (clients s1) with
    | Some c =>
        (Ok (Message (src_id msg) (reply msg) (OPERATION revision op')),
         with_clients
           (Dict.set (src_id msg) (set_index (get_operation_index op') c)
              (clients s1))
           (with_peer_tag_doc tags s1))
    | None => (Raise KeyError, with_peer_tag_doc tags s1)
    end.
Proof using.
  intros Hbody Htag Hrecv Htags. unfold handle_operation. rewrite Hbody.
  erewrite bind_ok by exact Hrecv. cbn [src_id reply].
  erewrite bind_ok
    by (unfold lift; rewrite (peer_ops_annotation _ _ _ op' Htag);
        reflexivity).
  unfold bind at 1. unfold get_state at 1. rewrite Htags.
  unfold bind at 1. unfold modify at 1.
  destruct (Dict.get (src_id msg) (clients s1)) as [c |]; reflexivity.
Qed.

Lemma annotation_applies (tag : ascii) (op' : list op_val) (doc d tags0 : text) :
  List.length tags0 = List.length doc ->
  apply_ops op' doc = Some d ->
  exists tags,
    apply_ops (annotation_op tag op') tags0 = Some tags /\
    List.length tags = List.length d.
Proof using.
  intros Hlen Hd.
  destruct (apply_ops_lengths _ _ _ Hd) as [Hb Ht].
  destruct (annotation_op_lengths tag op') as [Hab Hat].
  destruct (apply_ops_defined (annotation_op tag op') tags0) as [tags Htags];
    [rewrite Hab; lia |].
  exists tags. split; [exact Htags |].
  destruct (apply_ops_lengths _ _ _ Htags) as [_ Htt]. lia.
Qed.

(** X10: one round of the dispatch loop on an edit that the transform
    engine accepts, from a registered author who has a tag, with the
    annotation as long as the document and every client within reach:
    the round returns; the document, the log and the annotation are
    updated; the author's cursor is set to [get_operation_index] of the
    transformed operation while every other client and the set of ids are
    kept; and the message carrying the transformed operation goes to the
    clients that pass the guard, and to nobody else. *)
Theorem dispatch_accepted_edit (s s1 : TroopServer) (m : message)
  (q : list message) (tag : ascii) (revision : Z)
  (operation op' : list op_val) (c : Client) :
  msg_queue s = m :: q ->
  body m = OPERATION revision operation ->
  get_peer_char (src_id m) = Some tag ->
  texts_aligned s ->
  receive_operation transform (src_id m) revision operation
    (with_msg_queue q s) = (Ok op', s1) ->
  Dict.get (src_id m) (clients s) = Some c ->
  reachable link_up (Dict.values (clients s)) = true ->
  exists d tags,
    let m' := Message (src_id m) (reply m) (OPERATION revision op') in
    let registry := Dict.set (src_id m)
                      (set_index (get_operation_index op') c) (clients s) in
    apply_ops op' (document s) = Some d /\
    apply_ops (annotation_op tag op') (peer_tag_doc s) = Some tags /\
    List.length tags = List.length d /\
    update_send_step link_up get_peer_char get_operation_index transform s
    = (Ok tt,
       with_wire
         (wire s ++ deliveries m'
                      (filter (fun x => should_send x m')
                         (Dict.values registry)))
         (with_clients registry
            (with_peer_tag_doc tags
               (with_backend (backend s ++ [op'])
                  (with_document d (with_msg_queue q s)))))) /\
    Dict.keys registry = Dict.keys (clients s) /\
    Dict.get (src_id m) registry
    = Some (set_index (get_operation_index op') c) /\
    (forall k, k <> src_id m -> Dict.get k registry = Dict.get k (clients s)).
Proof using.
  intros Hq Hbody Htag Hal Hrecv Hget Hr.
  destruct (receive_operation_accepts _ _ _ _ _ _ Hrecv) as [d [Hd Hs1]].
  cbn [document with_msg_queue] in Hd.
  destruct (annotation_applies tag op' (document s) d (peer_tag_doc s) Hal Hd)
    as [tags [Htags Hlen]].
  exists d, tags. cbn zeta.
  split; [exact Hd |]. split; [exact Htags |]. split; [exact Hlen |].
  split; [| split; [| split]].
  - unfold update_send_step. erewrite bind_ok by reflexivity. rewrite Hq.
    erewrite bind_ok by reflexivity.
    assert (Hop : is_MSG_OPERATION m = true)
      by (unfold is_MSG_OPERATION; now rewrite Hbody).
    rewrite Hop. subst s1. erewrite bind_ok.
    2:{ rewrite (handle_operation_outcome m (with_msg_queue q s) _ tag
                   revision operation op' tags Hbody Htag Hrecv Htags).
        cbn [clients with_backend with_document with_msg_queue].
        rewrite Hget. reflexivity. }
    unfold respond. erewrite bind_ok by reflexivity.
    cbn [clients with_clients].
    rewrite respond_loop_reachable; [reflexivity |].
    apply reachable_set; [assumption |]. cbn [source set_index].
    apply (reachable_In (Dict.values (clients s))); [assumption |].
    now apply (get_In (src_id m)).
  - rewrite keys_set.
    replace (Dict.contains (src_id m) (clients s)) with true; [reflexivity |].
    symmetry. apply contains_get. now exists c.
  - apply get_set_same.
  - intros k Hk. now apply get_set_other.
Qed.

(** X11: when the author of an accepted edit is no longer registered,
    the round of the dispatch loop raises [KeyError] after the document,
    the log and the annotation have been updated: the edit is applied on
    the server and sent to nobody. *)
Theorem dispatch_edit_of_unregistered_author (s s1 : TroopServer)
  (m : message) (q : list message) (tag : ascii) (revision : Z)
  (operation op' : list op_val) :
  msg_queue s = m :: q ->
  body m = OPERATION revision operation ->
  get_peer_char (src_id m) = Some tag ->
  texts_aligned s ->
  receive_operation transform (src_id m) revision operation
    (with_msg_queue q s) = (Ok op', s1) ->
  Dict.get (src_id m) (clients s) = None ->
  exists d tags,
    apply_ops op' (document s) = Some d /\
    apply_ops (annotation_op tag op') (peer_tag_doc s) = Some tags /\
    update_send_step link_up get_peer_char get_operation_index transform s
    = (Raise KeyError,
       with_peer_tag_doc tags
         (with_backend (backend s ++ [op'])
            (with_document d (with_msg_queue q s)))) /\
    wire (snd (update_send_step link_up get_peer_char get_operation_index
                 transform s)) = wire s.
Proof using.
  intros Hq Hbody Htag Hal Hrecv Hget.
  destruct (receive_operation_accepts _ _ _ _ _ _ Hrecv) as [d [Hd Hs1]].
  cbn [document with_msg_queue] in Hd.
  destruct (annotation_applies tag op' (document s) d (peer_tag_doc s) Hal Hd)
    as [tags [Htags Hlen]].
  exists d, tags. split; [exact Hd |]. split; [exact Htags |].
  assert (Hrun : update_send_step link_up get_peer_char get_operation_index
                   transform s
                 = (Raise KeyError,
                    with_peer_tag_doc tags
                      (with_backend (backend s ++ [op'])
                         (with_document d (with_msg_queue q s))))).
  { unfold update_send_step. erewrite bind_ok by reflexivity. rewrite Hq.
    erewrite bind_ok by reflexivity.
    assert (Hop : is_MSG_OPERATION m = true)
      by (unfold is_MSG_OPERATION; now rewrite Hbody).
    rewrite Hop. subst s1. erewrite bind_raise.
    2:{ rewrite (handle_operation_outcome m (with_msg_queue q s) _ tag
                   revision operation op' tags Hbody Htag Hrecv Htags).
        cbn [clients with_backend with_document with_msg_queue].
        rewrite Hget. reflexivity. }
    reflexivity. }
  split; [exact Hrun |]. now rewrite Hrun.
Qed.

(** ** Relaying an ordinary message *)

(** X12: with no join pending, an empty queue and every client within
    reach, a message that is neither a [MSG_CONNECT] nor a
    [MSG_OPERATION] is queued by the handler, and the next round of the
    dispatch loop sends it, unchanged, to the registered clients that pass
    the guard and leaves the queue empty; nothing else on the server
    changes. *)
Theorem relay_of_ordinary_message (h : TroopRequestHandler) (m : message)
  (s : TroopServer) :
  waiting_for_ack s = false ->
  msg_queue s = [] ->
  is_MSG_CONNECT m = false ->
  is_MSG_OPERATION m = false ->
  reachable link_up (Dict.values (clients s)) = true ->
  handle_msg link_up get_peer_id_from_char h m s
  = (Ok tt, with_msg_queue [m] s) /\
  update_send_step link_up get_peer_char get_operation_index transform
    (with_msg_queue [m] s)
  = (Ok tt,
     with_wire (wire s ++ deliveries m
                            (filter (fun x => should_send x m)
                               (Dict.values (clients s)))) s).
Proof using.
  intros Hw Hq Hc Hop Hr. split.
  - unfold handle_msg. rewrite Hc. unfold bind, get_state, modify.
    now rewrite Hw, Hq.
  - unfold update_send_step. erewrite bind_ok by reflexivity.
    cbn [msg_queue with_msg_queue]. erewrite bind_ok by reflexivity.
    rewrite Hop. erewrite bind_ok by reflexivity.
    unfold respond. erewrite bind_ok by reflexivity.
    cbn [clients with_msg_queue].
    rewrite respond_loop_reachable by assumption.
    cbn [wire with_msg_queue with_wire]. rewrite <- Hq. now destruct s.
Qed.

(** ** Admission *)

Lemma addr_eqb_refl (a : addr) : addr_eqb a a = true.
Proof using.
  unfold addr_eqb. now rewrite String.eqb_refl, Z.eqb_refl.
Qed.

Lemma addr_eqb_eq (a b : addr) : addr_eqb a b = true <-> a = b.
Proof using.
  unfold addr_eqb. destruct a as [ha pa], b as [hb pb]. cbn.
  rewrite andb_true_iff, String.eqb_eq, Z.eqb_eq.
  split; [intros [-> ->]; reflexivity | intros H; injection H; auto].
Qed.

Lemma find_after_set (a : addr) (k : Z) (new_client : Client) (d : Dict.t) :
  address new_client = a ->
  existsb (fun c => client_eq c a) (Dict.values d) = false ->
  find (fun c => client_eq c a) (Dict.values (Dict.set k new_client d))
  = Some new_client.
Proof using.
  intros Ha. assert (Hnew : client_eq new_client a = true)
    by (unfold client_eq; rewrite Ha; apply addr_eqb_refl).
  unfold Dict.values. induction d as [| [k' v'] r IH]; cbn.
  - now rewrite Hnew.
  - intros H. apply orb_false_iff in H. destruct H as [H1 H2].
    destruct (k' =? k); cbn.
    + now rewrite Hnew.
    + rewrite H1. now apply IH.
Qed.

(** The state in which a successful admission leaves the server. *)
Lemma handle_connect_admits (h : TroopRequestHandler) (msg : message)
  (nm hn : string) (pt : Z) (s : TroopServer) :
  body msg = CONNECT nm hn pt ->
  address_registered (client_address h) s = false ->
  link_up (request h) = true ->
  reachable link_up (Dict.values (clients s)) = true ->
  let new_client :=
    new_Client (client_address h) (client_id h) (request h) nm in
  exists W,
    handle_connect link_up h msg s
    = (Ok (Some new_client),
       with_wire (wire s ++ W)
         (with_clients (Dict.set (client_id h) new_client (clients s))
            (with_acknowledged_clients [] (with_waiting_for_ack true s)))).
Proof using.
  intros Hb Ha Hreq Hr new_client.
  set (s0 := with_clients (Dict.set (id new_client) new_client (clients s))
               (with_acknowledged_clients [] (with_waiting_for_ack true s))).
  assert (Hr0 : reachable link_up (Dict.values (clients s0)) = true).
  { subst s0. cbn [clients with_clients]. now apply reachable_set. }
  destruct (connect_loop_reachable link_up (client_address h) new_client
              (MSG_CONNECT (id new_client) (name new_client)
                 (hostname new_client) (port new_client))
              (Dict.values (clients s0)) s0 Hr0 Hreq) as [W HW].
  exists W. unfold handle_connect. rewrite Hb.
  unfold bind at 1. unfold get_state. rewrite Ha. cbn [negb].
  unfold wait_for_ack, connect_clients.
  unfold bind at 1. unfold modify at 1.
  unfold bind at 1. unfold bind at 1. unfold modify at 1.
  unfold bind at 1. unfold get_state at 1.
  fold new_client.
  match goal with
  | |- context [for_each ?l ?b ?st] =>
      change (for_each l b st)
        with (for_each (Dict.values (clients s0)) b s0)
  end.
  rewrite HW. reflexivity.
Qed.

(** X13: a [MSG_CONNECT] from an address that is not registered, with
    every client and the newcomer within reach, registers a client with
    the handler's address, id and socket and cursor 0, raises the barrier
    with no acknowledgement recorded, and keeps every client registered
    under another id.  Afterwards [get_client] finds the newcomer by its
    id and [get_client_from_addr] by its address, and a further
    [MSG_CONNECT] on the same connection admits nobody. *)
Theorem admission_registers_newcomer (h : TroopRequestHandler)
  (msg : message) (s : TroopServer) :
  is_MSG_CONNECT msg = true ->
  address_registered (client_address h) s = false ->
  link_up (request h) = true ->
  reachable link_up (Dict.values (clients s)) = true ->
  exists new_client s1,
    handle_connect link_up h msg s = (Ok (Some new_client), s1) /\
    address new_client = client_address h /\
    id new_client = client_id h /\
    source new_client = request h /\
    index new_client = 0 /\
    waiting_for_ack s1 = true /\
    acknowledged_clients s1 = [] /\
    get_client (client_id h) s1 = (Ok new_client, s1) /\
    get_client_from_addr (client_address h) s1 = (Ok (Some new_client), s1) /\
    (forall k, k <> client_id h ->
               Dict.get k (clients s1) = Dict.get k (clients s)) /\
    (forall msg', is_MSG_CONNECT msg' = true ->
                  handle_connect link_up h msg' s1 = (Ok None, s1)).
Proof using.
  intros Hc Ha Hreq Hr.
  destruct (is_MSG_CONNECT_body msg Hc) as [nm [hn [pt Hb]]].
  destruct (handle_connect_admits h msg nm hn pt s Hb Ha Hreq Hr) as [W HW].
  eexists. eexists. split; [exact HW |].
  cbn [address id source index new_Client waiting_for_ack
         acknowledged_clients with_wire with_clients
         with_acknowledged_clients with_waiting_for_ack].
  repeat (split; [reflexivity |]).
  assert (Hfind : find (fun c => client_eq c (client_address h))
                    (Dict.values
                       (Dict.set (client_id h)
                          (new_Client (client_address h) (client_id h)
                             (request h) nm) (clients s)))
                  = Some (new_Client (client_address h) (client_id h)
                            (request h) nm)).
  { apply find_after_set; [reflexivity | exact Ha]. }
  split.
  { unfold get_client. cbn [clients with_wire with_clients].
    now rewrite get_set_same. }
  split.
  { unfold get_client_from_addr. cbn [clients with_wire with_clients].
    now rewrite Hfind. }
  split.
  { intros k Hk. cbn [clients with_wire with_clients].
    now apply get_set_other. }
  intros msg' Hc'. apply handle_connect_known; [assumption |].
  unfold address_registered. cbn [clients with_wire with_clients].
  apply existsb_exists. apply find_some in Hfind. destruct Hfind as [Hin Heq].
  eexists. split; [exact Hin | exact Heq].
Qed.

(** X14: [get_client_from_addr] never changes the server.  It returns
    [None] exactly when no registered client has the address, which is
    the test by which [handle_connect] admits; otherwise it returns a
    registered client with that address, and the clients before it in the
    registry have other addresses. *)
Theorem get_client_from_addr_finds_first (a : addr) (s : TroopServer) :
  exists r,
    get_client_from_addr a s = (Ok r, s) /\
    (r = None <-> address_registered a s = false) /\
    (forall c, r = Some c ->
       address c = a /\
       exists pre post,
         Dict.values (clients s) = pre ++ c :: post /\
         forall x, In x pre -> address x <> a).
Proof using.
  unfold get_client_from_addr, address_registered.
  exists (find (fun c => client_eq c a) (Dict.values (clients s))).
  split; [reflexivity |].
  induction (Dict.values (clients s)) as [| x r [IH1 IH2]]; cbn.
  - split; [split; reflexivity | discriminate].
  - destruct (client_eq x a) eqn:E; cbn.
    + split; [split; discriminate |]. intros c Hc. injection Hc as <-.
      split; [now apply addr_eqb_eq |]. exists [], r.
      split; [reflexivity | intros y []].
    + split; [exact IH1 |]. intros c Hc.
      destruct (IH2 c Hc) as [Haddr [pre [post [-> Hpre]]]].
      split; [exact Haddr |]. exists (x :: pre), post.
      split; [reflexivity |]. intros y [<- | Hy]; [| now apply Hpre].
      intros Hx. apply addr_eqb_eq in Hx. unfold client_eq in E. congruence.
Qed.

(** X15: [update_client] raises [KeyError] and does nothing when the
    handler's id is not registered, and [ValueError] when the annotation
    cannot be encoded; otherwise it sends one [MSG_SET_ALL] with the
    document, the ranges and the cursors to the handler's own client and
    to nobody else. *)
Theorem update_client_sends_contents (h : TroopRequestHandler)
  (s : TroopServer) :
  (Dict.get (client_id h) (clients s) = None ->
   update_client link_up get_peer_id_from_char h s = (Raise KeyError, s)) /\
  (forall c,
      Dict.get (client_id h) (clients s) = Some c ->
      forallb (has_peer_id get_peer_id_from_char) (peer_tag_doc s) = false ->
      update_client link_up get_peer_id_from_char h s
      = (Raise ValueError, s)) /\
  (forall c ranges,
      Dict.get (client_id h) (clients s) = Some c ->
      client_ranges get_peer_id_from_char (peer_tag_doc s) = Ok ranges ->
      link_up (source c) = true ->
      update_client link_up get_peer_id_from_char h s
      = (Ok tt,
         with_wire
           (wire s ++
            [(source c,
              Framed (MSG_SET_ALL (-1) (document s) ranges
                        (map (fun x => (id x, index x))
                           (Dict.values (clients s)))))]) s)).
Proof using.
  unfold update_client, client, get_client. split; [| split].
  - intros Hg. unfold bind. now rewrite Hg.
  - intros c Hg Hbad. unfold bind at 1. rewrite Hg.
    unfold bind at 1. rewrite get_contents_eq.
    unfold client_ranges.
    destruct (peer_tag_doc s) as [| p rest] eqn:Ed; [discriminate |].
    cbn [forallb] in Hbad.
    destruct (ranges_loop_defined rest [] p 1) as [_ Hno]; [lia |].
    now rewrite (Hno Hbad).
  - intros c ranges Hg Hranges Hup. unfold bind at 1. rewrite Hg.
    unfold bind at 1. rewrite get_contents_eq, Hranges.
    now apply send_up.
Qed.

(** ** What every method keeps *)

Lemma scan_frame (l : list Z) :
  forall s, exists v, fold_left scan_step l s = with_last_id v s.
Proof using.
  induction l as [| n r IH]; intros s; cbn [fold_left].
  - exists (last_id s). now destruct s.
  - rewrite scan_step_last_id. destruct (IH (with_last_id
      (if Dict.contains n (clients s) then last_id s else n) s)) as [v Hv].
    exists v. now rewrite Hv.
Qed.

Lemma get_next_id_frame (s : TroopServer) :
  exists v, snd (get_next_id s) = with_last_id v s.
Proof using.
  unfold get_next_id. destruct (last_id s <? max_id s); cbn [snd].
  - now eexists.
  - apply scan_frame.
Qed.

Lemma try_dead_keeps {A} (R : TroopServer -> Prop) (m : M A)
  (handler : string -> M A) :
  (forall s, R s -> R (snd (m s))) ->
  (forall e s, R s -> R (snd (handler e s))) ->
  forall s, R s -> R (snd (try_dead m handler s)).
Proof using.
  intros Hm Hh s Hs. unfold try_dead. specialize (Hm s Hs).
  destruct (m s) as [[a | e] s1]; cbn in Hm; [exact Hm |].
  destruct e; try exact Hm. now apply Hh.
Qed.

(** The shape of the state after [handle_operation], in every outcome. *)
Lemma handle_operation_frame (msg : message) (s : TroopServer) :
  exists d b t cs,
    snd (handle_operation get_peer_char get_operation_index transform msg s)
    = with_clients cs (with_peer_tag_doc t (with_backend b (with_document d s))).
Proof using.
  assert (Hid : s = with_clients (clients s)
                      (with_peer_tag_doc (peer_tag_doc s)
                         (with_backend (backend s)
                            (with_document (document s) s))))
    by now destruct s.
  unfold handle_operation.
  destruct (body msg) as [| | | revision operation | | | | | | |];
    try (do 4 eexists; exact Hid).
  destruct (receive_operation_cases transform (src_id msg) revision operation s)
    as [[e He] | [op' [d [Hd Hrecv]]]].
  - erewrite bind_raise by exact He. do 4 eexists; exact Hid.
  - erewrite bind_ok by exact Hrecv. cbn [src_id reply].
    unfold bind at 1, lift.
    destruct (peer_ops get_peer_char (src_id msg) op') as [peer_op | e].
    + unfold bind at 1. unfold get_state at 1.
      cbn [peer_tag_doc with_backend with_document].
      destruct (apply_ops peer_op (peer_tag_doc s)) as [tags |].
      * unfold bind at 1. unfold modify at 1.
        cbn [clients with_backend with_document].
        destruct (Dict.get (src_id msg) (clients s)) as [c |].
        -- unfold bind, modify, ret. cbn [snd]. do 4 eexists. reflexivity.
        -- unfold raise. cbn [snd]. exists d, (backend s ++ [op']), tags,
             (clients s). now destruct s.
      * unfold raise. cbn [snd].
        exists d, (backend s ++ [op']), (peer_tag_doc s), (clients s).
        now destruct s.
    + cbn [snd].
      exists d, (backend s ++ [op']), (peer_tag_doc s), (clients s).
      now destruct s.
Qed.

Section Keeping.

(** A property [R] of the server state that the elementary updates keep;
    [okm] is what is asked of a message for it to be queued. *)
Variable R : TroopServer -> Prop.
Variable okm : message -> Prop.

Hypothesis R_wire : forall w s, R s -> R (with_wire w s).
Hypothesis R_last_id : forall v s, R s -> R (with_last_id v s).
Hypothesis R_waiting : forall v s, R s -> R (with_waiting_for_ack v s).
Hypothesis R_acks : forall v s, R s -> R (with_acknowledged_clients v s).
Hypothesis R_backend : forall v s, R s -> R (with_backend v s).
Hypothesis R_running : forall v s, R s -> R (with_running v s).
Hypothesis R_del :
  forall k s, R s -> R (with_clients (Dict.del k (clients s)) s).
Hypothesis R_admit :
  forall c s, R s -> R (with_clients (Dict.set (id c) c (clients s)) s).
Hypothesis R_push :
  forall m s, okm m -> R s -> R (with_msg_queue (msg_queue s ++ [m]) s).
Hypothesis R_edit :
  forall m q s,
    msg_queue s = m :: q -> R s ->
    R (snd (handle_operation get_peer_char get_operation_index transform m
              (with_msg_queue q s))).
Hypothesis R_pop :
  forall m q s, msg_queue s = m :: q -> R s -> R (with_msg_queue q s).

Lemma send_keeps (c : Client) (msg : message) (s : TroopServer) :
  R s -> R (snd (send link_up c msg s)).
Proof using R_wire.
  intros Hs. destruct (send_frame link_up c msg s) as [w Hw].
  rewrite Hw. now apply R_wire.
Qed.

Lemma broadcast_keeps (msg : message) (cs : list Client) (s : TroopServer) :
  R s -> R (snd (for_each cs (fun c => send link_up c msg) s)).
Proof using R_wire.
  apply for_each_keeps. intros c s0. apply send_keeps.
Qed.

Lemma remove_client_keeps (cid : Z) (s : TroopServer) :
  R s -> R (snd (remove_client link_up cid s)).
Proof using R_wire R_del.
  intros Hs. rewrite remove_client_state. apply broadcast_keeps.
  now apply R_del.
Qed.

Lemma respond_keeps (msg : message) (s : TroopServer) :
  R s -> R (snd (respond link_up msg s)).
Proof using R_wire R_del.
  intros Hs. unfold respond. unfold bind at 1. unfold get_state at 1.
  apply for_each_keeps; [| exact Hs]. intros c s0.
  apply try_dead_keeps.
  - intros s1 H1. destruct (should_send c msg);
      [now apply send_keeps | exact H1].
  - intros e s1. apply remove_client_keeps.
Qed.

Lemma authenticate_keeps (h : TroopRequestHandler) (pw : string)
  (s : TroopServer) :
  R s -> R (snd (authenticate link_up h pw s)).
Proof using R_wire R_last_id.
  intros Hs. unfold authenticate. unfold bind at 1. unfold get_state at 1.
  apply bind_keeps; [| | exact Hs].
  - intros s0 H0. destruct (String.eqb pw (password s)); [| exact H0].
    destruct (get_next_id_frame s0) as [v Hv]. rewrite Hv.
    now apply R_last_id.
  - intros cid s0 H0. apply bind_keeps; [| intros; assumption | exact H0].
    intros s1 H1. unfold sendall.
    destruct (link_up _); cbn [snd]; [now apply R_wire | exact H1].
Qed.

Lemma handle_connect_keeps (h : TroopRequestHandler) (msg : message)
  (s : TroopServer) :
  R s -> R (snd (handle_connect link_up h msg s)).
Proof using R_wire R_waiting R_acks R_admit.
  intros Hs. unfold handle_connect.
  destruct (body msg) as [nm hn pt | | | | | | | | | |]; try exact Hs.
  unfold bind at 1. unfold get_state at 1.
  destruct (negb (address_registered (client_address h) s)); [| exact Hs].
  apply bind_keeps; [| | exact Hs].
  - intros s1 H1. unfold wait_for_ack, modify. cbn [snd].
    now apply R_acks, R_waiting.
  - intros _ s1 H1. apply bind_keeps; [| intros; assumption | exact H1].
    intros s2 H2. unfold connect_clients.
    apply bind_keeps; [| | exact H2].
    + intros s3 H3. unfold modify. cbn [snd].
      apply (R_admit (new_Client (client_address h) (client_id h)
                        (request h) nm)). exact H3.
    + intros _ s3 H3. unfold bind at 1. unfold get_state at 1.
      apply for_each_keeps; [| exact H3]. intros c s4 H4.
      apply bind_keeps; [intros; now apply send_keeps | | exact H4].
      intros _ s5 H5.
      apply bind_keeps; [| intros; now apply send_keeps | exact H5].
      intros s6 H6. destruct (negb (client_eq c (client_address h)));
        [now apply send_keeps | exact H6].
Qed.

Lemma update_all_clients_keeps (s : TroopServer) :
  R s -> R (snd (update_all_clients link_up get_peer_id_from_char s)).
Proof using R_wire.
  intros Hs.
  destruct (update_all_clients_frame link_up get_peer_id_from_char s)
    as [w Hw].
  rewrite Hw. now apply R_wire.
Qed.

Lemma connect_ack_keeps (msg : message) (s : TroopServer) :
  R s -> R (snd (connect_ack msg s)).
Proof using R_waiting R_acks.
  intros Hs. unfold connect_ack. destruct (forallb _ _); cbn [snd].
  - now apply R_acks, R_waiting, R_acks.
  - now apply R_acks.
Qed.

Lemma handle_msg_keeps (h : TroopRequestHandler) (msg : message)
  (s : TroopServer) :
  okm msg -> R s ->
  R (snd (handle_msg link_up get_peer_id_from_char h msg s)).
Proof using R_wire R_waiting R_acks R_backend R_admit R_push.
  intros Hm Hs. unfold handle_msg. destruct (is_MSG_CONNECT msg).
  - apply bind_keeps; [apply handle_connect_keeps | | exact Hs].
    intros _ s1 H1.
    apply bind_keeps; [apply update_all_clients_keeps | | exact H1].
    intros _ s2 H2. unfold clear_history, modify. cbn [snd].
    now apply R_backend.
  - unfold bind, get_state. destruct (waiting_for_ack s).
    + destruct (is_MSG_CONNECT_ACK msg); [now apply connect_ack_keeps | exact Hs].
    + unfold modify. cbn [snd]. now apply R_push.
Qed.

Lemma update_send_step_keeps (s : TroopServer) :
  R s ->
  R (snd (update_send_step link_up get_peer_char get_operation_index
            transform s)).
Proof using R_wire R_del R_edit R_pop.
  intros Hs. unfold update_send_step. unfold bind at 1. unfold get_state at 1.
  destruct (msg_queue s) as [| m q] eqn:Hq; [exact Hs |].
  unfold bind at 1. unfold modify at 1. unfold bind.
  destruct (is_MSG_OPERATION m).
  - pose proof (R_edit m q s Hq Hs) as He.
    destruct (handle_operation get_peer_char get_operation_index transform m
                (with_msg_queue q s)) as [[m' | e] s1]; cbn [snd] in He.
    + now apply respond_keeps.
    + exact He.
  - unfold ret. apply respond_keeps. now apply (R_pop m).
Qed.

Lemma kill_keeps (s : TroopServer) : R s -> R (snd (kill link_up s)).
Proof using R_wire R_running.
  intros Hs. unfold kill. unfold bind at 1. unfold get_state at 1.
  apply bind_keeps; [apply broadcast_keeps | | exact Hs].
  intros _ s1 H1. unfold modify. cbn [snd]. now apply R_running.
Qed.

Lemma write_keeps (str : string) (s : TroopServer) :
  R s -> R (snd (write link_up str s)).
Proof using R_wire.
  intros Hs. unfold write. destruct (negb (String.eqb str newline));
    [| exact Hs].
  unfold bind, get_state. now apply broadcast_keeps.
Qed.

(** Every event keeps [R], provided the messages handled may be queued. *)
Lemma run_events_keep (es : list event) :
  Forall (fun e => match e with EvHandle _ m => okm m | _ => True end) es ->
  forall s,
    R s ->
    R (run_events link_up get_peer_char get_peer_id_from_char
         get_operation_index transform es s).
Proof using R_wire R_last_id R_waiting R_acks R_backend R_running R_del
  R_admit R_push R_edit R_pop.
  unfold run_events. induction 1 as [| e r He _ IH]; intros s Hs;
    cbn [fold_left]; [exact Hs |].
  apply IH. destruct e as [h pw | h m | h | | | str]; cbn [run_event].
  - now apply authenticate_keeps.
  - now apply handle_msg_keeps.
  - unfold handle_client_lost. now apply remove_client_keeps.
  - now apply update_send_step_keeps.
  - now apply kill_keeps.
  - now apply write_keeps.
Qed.

End Keeping.

(** ** What [handle_operation] can have done *)

(** Every outcome of [handle_operation]: nothing happened; or the edit
    was applied and logged and the call stopped before the annotation; or
    the annotation was updated too and the author was not registered; or
    everything was updated. *)
Lemma handle_operation_cases (msg : message) (s : TroopServer) :
  let s' := snd (handle_operation get_peer_char get_operation_index
                   transform msg s) in
  s' = s \/
  exists op' d,
    apply_ops op' (document s) = Some d /\
    let s1 := with_backend (backend s ++ [op']) (with_document d s) in
    ((s' = s1 /\
      ((exists e, peer_ops get_peer_char (src_id msg) op' = Raise e) \/
       exists peer_op,
         peer_ops get_peer_char (src_id msg) op' = Ok peer_op /\
         apply_ops peer_op (peer_tag_doc s) = None)) \/
     exists peer_op tags,
       peer_ops get_peer_char (src_id msg) op' = Ok peer_op /\
       apply_ops peer_op (peer_tag_doc s) = Some tags /\
       ((Dict.get (src_id msg) (clients s) = None /\
         s' = with_peer_tag_doc tags s1) \/
        exists c,
          Dict.get (src_id msg) (clients s) = Some c /\
          s' = with_clients
                 (Dict.set (src_id msg)
                    (set_index (get_operation_index op') c) (clients s))
                 (with_peer_tag_doc tags s1))).
Proof using.
  intros s'. subst s'.
  destruct (body msg) as [| | | revision operation | | | | | | |] eqn:Hbody;
    try (left; unfold handle_operation; rewrite Hbody; reflexivity).
  destruct (receive_operation_cases transform (src_id msg) revision operation s)
    as [[e He] | [op' [d [Hd Hrecv]]]].
  - left. unfold handle_operation. rewrite Hbody.
    now erewrite bind_raise by exact He.
  - right. exists op', d. split; [exact Hd |]. cbn zeta.
    assert (Hrun :
      handle_operation get_peer_char get_operation_index transform msg s
      = match peer_ops get_peer_char (src_id msg) op' with
        | Raise e =>
            (Raise e, with_backend (backend s ++ [op']) (with_document d s))
        | Ok peer_op =>
            match apply_ops peer_op (peer_tag_doc s) with
            | None =>
                (Raise OTError,
                 with_backend (backend s ++ [op']) (with_document d s))
            | Some tags =>
                match Dict.get (src_id msg) (clients s) with
                | None =>
                    (Raise KeyError,
                     with_peer_tag_doc tags
                       (with_backend (backend s ++ [op'])
                          (with_document d s)))
                | Some c =>
                    (Ok (Message (src_id msg) (reply msg)
                           (OPERATION revision op')),
                     with_clients
                       (Dict.set (src_id msg)
                          (set_index (get_operation_index op') c)
                          (clients s))
                       (with_peer_tag_doc tags
                          (with_backend (backend s ++ [op'])
                             (with_document d s))))
                end
            end
        end).
    { unfold handle_operation. rewrite Hbody.
      erewrite bind_ok by exact Hrecv. cbn [src_id reply].
      unfold bind at 1, lift.
      destruct (peer_ops get_peer_char (src_id msg) op') as [peer_op | e];
        [| reflexivity].
      unfold bind at 1. unfold get_state at 1.
      cbn [peer_tag_doc with_backend with_document].
      destruct (apply_ops peer_op (peer_tag_doc s)) as [tags |];
        [| reflexivity].
      unfold bind at 1. unfold modify at 1.
      cbn [clients with_backend with_document].
      destruct (Dict.get (src_id msg) (clients s)) as [c |]; reflexivity. }
    rewrite Hrun. clear Hrun.
    destruct (peer_ops get_peer_char (src_id msg) op') as [peer_op | e].
    + destruct (apply_ops peer_op (peer_tag_doc s)) as [tags |] eqn:Ea.
      * right. exists peer_op, tags. split; [reflexivity |].
        split; [exact Ea |].
        destruct (Dict.get (src_id msg) (clients s)) as [c |].
        -- right. exists c. split; reflexivity.
        -- left. split; reflexivity.
      * left. split; [reflexivity |]. right. exists peer_op.
        split; [reflexivity | exact Ea].
    + left. split; [reflexivity |]. left. now exists e.
Qed.

(** ** The registry stays well formed *)

Lemma registry_ok_del (k : Z) (d : Dict.t) :
  registry_ok d -> registry_ok (Dict.del k d).
Proof using.
  intros [Hnd Hall]. split.
  - unfold Dict.keys, Dict.del in *.
    induction d as [| [k' v] r IH]; cbn; [constructor |].
    inversion Hnd as [| k0 ks Hnotin Hnd']; subst.
    inversion Hall as [| kv l Hkv Hall']; subst.
    destruct (negb (k' =? k)); cbn.
    + constructor; [| now apply IH]. intros Hin. apply Hnotin.
      cbn in Hin. apply in_map_iff in Hin.
      destruct Hin as [kv [H1 H2]]. apply filter_In in H2.
      apply in_map_iff. exists kv. split; [exact H1 | exact (proj1 H2)].
    + now apply IH.
  - unfold Dict.del. apply Forall_forall. intros kv Hin.
    apply filter_In in Hin. rewrite Forall_forall in Hall. now apply Hall.
Qed.

Lemma registry_ok_set (k : Z) (v : Client) (d : Dict.t) :
  id v = k -> registry_ok d -> registry_ok (Dict.set k v d).
Proof using.
  intros Hid [Hnd Hall]. split.
  - rewrite keys_set. destruct (Dict.contains k d) eqn:E; [exact Hnd |].
    apply NoDup_app; [exact Hnd | repeat constructor; intros [] |].
    intros x Hx [<- | []]. apply contains_keys in Hx. congruence.
  - induction d as [| [k' v'] r IH]; cbn.
    + repeat constructor. exact Hid.
    + pose proof (Forall_inv Hall) as Hkv.
      pose proof (Forall_inv_tail Hall) as Hall'.
      cbn in Hnd. apply NoDup_cons_iff in Hnd. destruct Hnd as [_ Hnd'].
      destruct (k' =? k).
      * constructor; [exact Hid | exact Hall'].
      * constructor; [exact Hkv | now apply IH].
Qed.

Lemma registry_get_id (k : Z) (c : Client) (d : Dict.t) :
  registry_ok d -> Dict.get k d = Some c -> id c = k.
Proof using.
  intros [_ Hall]. unfold Dict.get.
  induction d as [| [k' v] r IH]; cbn; [discriminate |].
  inversion Hall as [| kv l Hkv Hall']; subst.
  destruct (Z.eqb_spec k' k) as [-> | Hne]; cbn.
  - intros H. injection H as <-. exact Hkv.
  - now apply IH.
Qed.

(** X16: whatever the threads of the server do, in whatever order and
    whether their calls return or raise, the registry keeps one entry
    per id and every entry is filed under the id of its client. *)
Theorem registry_stays_well_formed (es : list event) (s : TroopServer) :
  registry_ok (clients s) ->
  registry_ok
    (clients (run_events link_up get_peer_char get_peer_id_from_char
                get_operation_index transform es s)).
Proof using.
  intros Hs.
  apply (run_events_keep (fun s0 => registry_ok (clients s0))
           (fun _ => True)); try (intros; assumption).
  - intros k s0 H0. cbn [clients with_clients]. now apply registry_ok_del.
  - intros c s0 H0. cbn [clients with_clients]. now apply registry_ok_set.
  - intros m q s0 _ H0.
    destruct (handle_operation_cases m (with_msg_queue q s0))
      as [-> | [op' [d [_ [[-> _] | [peer_op [tags [_ [_ [[_ ->] | [c [Hc ->]]]]]]]]]]]];
      try exact H0.
    cbn [clients with_clients with_msg_queue] in *.
    apply registry_ok_set; [| exact H0]. cbn [id set_index].
    now apply (registry_get_id (src_id m) c (clients s0)).
  - apply Forall_forall. intros e _. now destruct e.
Qed.

(** ** The annotation stays aligned and valid *)

Lemma In_skipn_In {A} (n : nat) (l : list A) (x : A) :
  In x (skipn n l) -> In x l.
Proof using.
  intros H. rewrite <- (firstn_skipn n l). apply in_or_app. now right.
Qed.

Lemma In_firstn_In {A} (n : nat) (l : list A) (x : A) :
  In x (firstn n l) -> In x l.
Proof using.
  intros H. rewrite <- (firstn_skipn n l). apply in_or_app. now left.
Qed.

(** A character of the result of an operation comes from the document
    or from one of the strings the operation inserts. *)
Lemma apply_ops_chars (ops : list op_val) :
  forall doc d c,
    apply_ops ops doc = Some d -> In c d ->
    In c doc \/ exists t, In (OpStr t) ops /\ In c t.
Proof using.
  induction ops as [| v r IH]; intros doc d c H Hc.
  - destruct doc; [| discriminate]. injection H as <-. destruct Hc.
  - destruct v as [n | t]; cbn [apply_ops] in H.
    + destruct (Z.abs_nat n <=? List.length doc)%nat; [| discriminate].
      destruct (0 <=? n).
      * destruct (apply_ops r (skipn (Z.abs_nat n) doc)) as [d' |] eqn:E;
          [| discriminate].
        injection H as <-. apply in_app_or in Hc. destruct Hc as [Hc | Hc].
        -- left. now apply In_firstn_In in Hc.
        -- destruct (IH _ _ c E Hc) as [Hin | [t [Ht Hct]]].
           ++ left. now apply In_skipn_In in Hin.
           ++ right. exists t. split; [now right | assumption].
      * destruct (IH _ _ c H Hc) as [Hin | [t [Ht Hct]]].
        -- left. now apply In_skipn_In in Hin.
        -- right. exists t. split; [now right | assumption].
    + destruct (apply_ops r doc) as [d' |] eqn:E; [| discriminate].
      injection H as <-. apply in_app_or in Hc. destruct Hc as [Hc | Hc].
      * right. exists t. split; [now left | assumption].
      * destruct (IH _ _ c E Hc) as [Hin | [t' [Ht Hct]]].
        -- now left.
        -- right. exists t'. split; [now right | assumption].
Qed.

(** The strings of the derived operation hold the author's tag only. *)
Lemma peer_ops_inserts (src : Z) (ops : list op_val) :
  forall peer_op t c,
    peer_ops get_peer_char src ops = Ok peer_op ->
    In (OpStr t) peer_op -> In c t ->
    get_peer_char src = Some c.
Proof using.
  induction ops as [| v r IH]; intros peer_op t c H Ht Hc; cbn [peer_ops] in H.
  - injection H as <-. destruct Ht.
  - destruct v as [n | u].
    + destruct (peer_ops get_peer_char src r) as [r' | e]; [| discriminate].
      injection H as <-. destruct Ht as [Ht | Ht]; [discriminate |].
      now apply (IH r' t c).
    + destruct (get_peer_char src) as [tag |] eqn:Etag; [| discriminate].
      destruct (peer_ops get_peer_char src r) as [r' | e]; [| discriminate].
      injection H as <-. destruct Ht as [Ht | Ht].
      * injection Ht as <-. apply repeat_spec in Hc. now subst.
      * now apply (IH r' t c).
Qed.

Lemma get_client_ranges_of_valid (s : TroopServer) :
  tags_valid get_peer_char get_peer_id_from_char s ->
  exists data, get_client_ranges get_peer_id_from_char s = (Ok data, s).
Proof using.
  unfold tags_valid, get_client_ranges, client_ranges. intros Hv.
  assert (Hids : forallb (has_peer_id get_peer_id_from_char) (peer_tag_doc s)
                 = true).
  { rewrite forallb_forall in *. intros c Hc. specialize (Hv c Hc).
    unfold valid_tag in Hv. unfold has_peer_id.
    now destruct (get_peer_id_from_char c). }
  destruct (peer_tag_doc s) as [| p rest]; [now exists [] |].
  cbn [forallb] in Hids.
  destruct (ranges_loop_defined rest [] p 1) as [Hyes _]; [lia |].
  destruct (Hyes Hids) as [tail [Hrun _]]. exists tail. now rewrite Hrun.
Qed.

(** X17: when every tag that [get_peer_char] hands out is a valid tag,
    the annotation consists of valid tags whatever the threads of the
    server do, so a state in which [get_client_ranges] returns is never
    followed by one in which it raises. *)
Theorem annotation_stays_valid (es : list event) (s : TroopServer) :
  (forall i c, get_peer_char i = Some c ->
               valid_tag get_peer_char get_peer_id_from_char c = true) ->
  tags_valid get_peer_char get_peer_id_from_char s ->
  let s' := run_events link_up get_peer_char get_peer_id_from_char
              get_operation_index transform es s in
  tags_valid get_peer_char get_peer_id_from_char s' /\
  exists data, get_client_ranges get_peer_id_from_char s' = (Ok data, s').
Proof using.
  intros Halpha Hs s'.
  assert (Hv : tags_valid get_peer_char get_peer_id_from_char s').
  { subst s'.
    apply (run_events_keep
             (fun s0 => tags_valid get_peer_char get_peer_id_from_char s0)
             (fun _ => True)); try (intros; assumption).
    - intros m q s0 _ H0.
      destruct (handle_operation_cases m (with_msg_queue q s0))
        as [-> | [op' [d [_ [[-> _] | [peer_op [tags [Hp [Ha Hfin]]]]]]]]];
        try exact H0.
      assert (Htags : forallb (valid_tag get_peer_char get_peer_id_from_char)
                        tags = true).
      { apply forallb_forall. intros c Hc.
        cbn [peer_tag_doc with_msg_queue] in Ha.
        destruct (apply_ops_chars _ _ _ c Ha Hc) as [Hold | [t [Ht Hct]]].
        - unfold tags_valid in H0. rewrite forallb_forall in H0.
          now apply H0.
        - apply (Halpha (src_id m)).
          now apply (peer_ops_inserts (src_id m) op' peer_op t c). }
      destruct Hfin as [[_ ->] | [c [_ ->]]]; exact Htags.
    - apply Forall_forall. intros e _. now destruct e. }
  split; [exact Hv |].
  destruct (get_client_ranges_of_valid s' Hv) as [data Hdata].
  now exists data.
Qed.

Lemma handle_operation_aligned (m : message) (s : TroopServer) :
  tagged get_peer_char m = true ->
  texts_aligned s ->
  texts_aligned (snd (handle_operation get_peer_char get_operation_index
                        transform m s)) /\
  msg_queue (snd (handle_operation get_peer_char get_operation_index
                    transform m s)) = msg_queue s.
Proof using.
  intros Htag Hal. unfold tagged in Htag.
  destruct (get_peer_char (src_id m)) as [tag |] eqn:Etag; [| discriminate].
  destruct (handle_operation_cases m s)
    as [-> | [op' [d [Hd Hcases]]]]; [now split |].
  destruct (annotation_applies tag op' (document s) d (peer_tag_doc s) Hal Hd)
    as [tags0 [Htags0 Hlen0]].
  rewrite (peer_ops_annotation get_peer_char (src_id m) tag op' Etag)
    in Hcases.
  destruct Hcases as [[_ [[e He] | [peer_op [Hp Hnone]]]]
                     | [peer_op [tags [Hp [Ha Hfin]]]]].
  - discriminate.
  - injection Hp as <-. congruence.
  - injection Hp as <-. rewrite Htags0 in Ha. injection Ha as <-.
    destruct Hfin as [[_ ->] | [c [_ ->]]]; split; try reflexivity;
      exact Hlen0.
Qed.

(** X18: when the messages handled come from authors that have a tag,
    the annotation is as long as the document whatever the threads of
    the server do, and every queued message comes from an author that has
    a tag. *)
Theorem annotation_stays_aligned (es : list event) (s : TroopServer) :
  forallb (handles_tagged get_peer_char) es = true ->
  forallb (tagged get_peer_char) (msg_queue s) = true ->
  texts_aligned s ->
  let s' := run_events link_up get_peer_char get_peer_id_from_char
              get_operation_index transform es s in
  texts_aligned s' /\
  forallb (tagged get_peer_char) (msg_queue s') = true.
Proof using.
  intros Hes Hq Hal.
  apply (run_events_keep
           (fun s0 => texts_aligned s0 /\
                      forallb (tagged get_peer_char) (msg_queue s0) = true)
           (fun m => tagged get_peer_char m = true));
    try (intros; assumption).
  - intros m s0 Hm [H1 H2]. split; [exact H1 |].
    cbn [msg_queue with_msg_queue]. rewrite forallb_app, H2. cbn.
    now rewrite Hm.
  - intros m q s0 Hq0 [H1 H2]. rewrite Hq0 in H2. cbn in H2.
    apply andb_prop in H2. destruct H2 as [Hm Hrest].
    destruct (handle_operation_aligned m (with_msg_queue q s0) Hm H1)
      as [Ha Hqq].
    split; [exact Ha |]. rewrite Hqq. exact Hrest.
  - intros m q s0 Hq0 [H1 H2]. rewrite Hq0 in H2. cbn in H2.
    apply andb_prop in H2. split; [exact H1 | tauto].
  - rewrite forallb_forall in Hes. apply Forall_forall. intros e He.
    specialize (Hes e He). now destruct e.
  - now split.
Qed.

(** ** Order of arrival, order of dispatch *)

(** X19: while no join is pending, the handler appends a packet that
    holds no [MSG_CONNECT] to the dispatch queue, in the order of the
    packet, behind what was queued before, and changes nothing else. *)
Theorem packet_is_queued_in_order (h : TroopRequestHandler)
  (pkt : list message) (s : TroopServer) :
  waiting_for_ack s = false ->
  Forall (fun m => is_MSG_CONNECT m = false) pkt ->
  handle_packet link_up get_peer_id_from_char h pkt s
  = (Ok tt, with_msg_queue (msg_queue s ++ pkt) s).
Proof using.
  intros Hw Hall. now apply handle_packet_enqueues.
Qed.

Lemma update_send_relays (q : list message) :
  forall s,
    running s = true ->
    msg_queue s = q ->
    Forall (fun m => is_MSG_OPERATION m = false) q ->
    reachable link_up (Dict.values (clients s)) = true ->
    update_send link_up get_peer_char get_operation_index transform
      (List.length q) s
    = (Ok tt,
       with_msg_queue []
         (with_wire
            (wire s ++
             flat_map (fun m => deliveries m
                                  (filter (fun x => should_send x m)
                                     (Dict.values (clients s)))) q) s)).
Proof using.
  induction q as [| m r IH]; intros s Hrun Hq Hall Hr.
  - cbn. rewrite app_nil_r. rewrite <- Hq. now destruct s.
  - inversion Hall as [| m' r' Hm Hrest]; subst m' r'.
    cbn [List.length update_send]. unfold bind at 1. unfold get_state at 1.
    rewrite Hrun. erewrite bind_ok.
    2:{ unfold update_send_step. erewrite bind_ok by reflexivity.
        rewrite Hq. erewrite bind_ok by reflexivity.
        rewrite Hm. erewrite bind_ok by reflexivity.
        unfold respond. erewrite bind_ok by reflexivity.
        cbn [clients with_msg_queue].
        now apply respond_loop_reachable. }
    rewrite IH; try assumption; try reflexivity.
    cbn [wire clients with_wire with_msg_queue flat_map].
    rewrite <- app_assoc. reflexivity.
Qed.

(** X20: with every client within reach, the dispatch loop sends the
    queued messages that are not edits in the order of the queue, each to
    the clients that pass the guard, and leaves the queue empty and the
    rest of the server as it was. *)
Theorem update_send_keeps_queue_order (s : TroopServer) :
  running s = true ->
  Forall (fun m => is_MSG_OPERATION m = false) (msg_queue s) ->
  reachable link_up (Dict.values (clients s)) = true ->
  update_send link_up get_peer_char get_operation_index transform
    (List.length (msg_queue s)) s
  = (Ok tt,
     with_msg_queue []
       (with_wire
          (wire s ++
           flat_map (fun m => deliveries m
                                (filter (fun x => should_send x m)
                                   (Dict.values (clients s))))
             (msg_queue s)) s)).
Proof using.
  intros Hrun Hall Hr. now apply update_send_relays.
Qed.

(** ** A lost connection *)

Lemma handle_loop_lost (h : TroopRequestHandler) (rd : read)
  (rest : list read) (s : TroopServer) :
  running s = true ->
  handle_loop link_up get_peer_id_from_char h (rd :: rest) s
  = match rd with
    | ReceivedNone =>
        try_except (handle_client_lost link_up h)
          (fun _ => handle_client_lost link_up h) s
    | ReadFailed => handle_client_lost link_up h s
    | Received pkt =>
        bind (handle_packet link_up get_peer_id_from_char h pkt)
          (fun _ => handle_loop link_up get_peer_id_from_char h rest) s
    end.
Proof using.
  intros Hrun. cbn [handle_loop]. unfold bind at 1. unfold get_state at 1.
  rewrite Hrun. now destruct rd.
Qed.

(** [remove_client] run a second time for the same id: the id is no longer
    there to delete, and the notifications go out once more. *)
Lemma remove_client_again (cid : Z) (w : list (sock * packet))
  (s : TroopServer) :
  remove_client link_up cid
    (with_wire w (with_clients (Dict.del cid (clients s)) s))
  = for_each (Dict.values (Dict.del cid (clients s)))
      (fun x => send link_up x (MSG_REMOVE cid))
      (with_wire w (with_clients (Dict.del cid (clients s)) s)).
Proof using.
  rewrite remove_client_state. cbn [clients with_wire with_clients].
  rewrite (del_absent cid (Dict.del cid (clients s)) (contains_del cid _)).
  reflexivity.
Qed.

(** X21: a connection is lost, while the server runs, either because
    the read of the socket raises or because it yields [None].  In both
    cases the handler loop ends there, whatever reads would follow, and the
    handler's id is no longer registered.  When every remaining client can
    be reached, each receives one [MSG_REMOVE] and the loop returns.  When
    one cannot, the loop raises [DeadClientError] at the first such client;
    after a failed read the clients registered before that one have
    received one [MSG_REMOVE], but after a [None] they have received two:
    the exception of the first [handle_client_lost] is caught by the
    [except] clause of the loop, which calls [handle_client_lost] again. *)
Theorem lost_connection_ends_the_loop (h : TroopRequestHandler)
  (rest : list read) (s : TroopServer) :
  running s = true ->
  let cid := client_id h in
  let others := Dict.del cid (clients s) in
  let notes := deliveries (MSG_REMOVE cid) in
  let loop rd := handle_loop link_up get_peer_id_from_char h (rd :: rest) s in
  (reachable link_up (Dict.values others) = true ->
   loop ReadFailed
   = (Ok tt, with_wire (wire s ++ notes (Dict.values others))
               (with_clients others s)) /\
   loop ReceivedNone
   = (Ok tt, with_wire (wire s ++ notes (Dict.values others))
               (with_clients others s))) /\
  (forall pre c post,
      Dict.values others = pre ++ c :: post ->
      reachable link_up pre = true ->
      link_up (source c) = false ->
      loop ReadFailed
      = (Raise (DeadClientError (hostname c)),
         with_wire (wire s ++ notes pre) (with_clients others s)) /\
      loop ReceivedNone
      = (Raise (DeadClientError (hostname c)),
         with_wire (wire s ++ notes pre ++ notes pre)
           (with_clients others s))) /\
  Dict.contains cid (clients (snd (loop ReadFailed))) = false /\
  Dict.contains cid (clients (snd (loop ReceivedNone))) = false.
Proof using.
  intros Hrun cid others notes loop.
  assert (Hfail : loop ReadFailed = remove_client link_up cid s).
  { unfold loop. now rewrite handle_loop_lost. }
  assert (Hnone : loop ReceivedNone
                  = try_except (remove_client link_up cid)
                      (fun _ => remove_client link_up cid) s).
  { unfold loop. now rewrite handle_loop_lost. }
  assert (Hall : reachable link_up (Dict.values others) = true ->
                 remove_client link_up cid s
                 = (Ok tt, with_wire (wire s ++ notes (Dict.values others))
                             (with_clients others s))).
  { intros Hr. rewrite remove_client_state.
    now rewrite broadcast_reachable. }
  assert (Hdead : forall pre c post w,
             Dict.values others = pre ++ c :: post ->
             reachable link_up pre = true ->
             link_up (source c) = false ->
             remove_client link_up cid (with_wire w (with_clients others s))
             = (Raise (DeadClientError (hostname c)),
                with_wire (w ++ notes pre) (with_clients others s))).
  { intros pre c post w Hsplit Hpre Hc. unfold others.
    rewrite remove_client_again. fold others. rewrite Hsplit.
    now rewrite broadcast_stops. }
  assert (Hfirst : forall pre c post,
             Dict.values others = pre ++ c :: post ->
             reachable link_up pre = true ->
             link_up (source c) = false ->
             remove_client link_up cid s
             = (Raise (DeadClientError (hostname c)),
                with_wire (wire s ++ notes pre) (with_clients others s))).
  { intros pre c post Hsplit Hpre Hc. rewrite remove_client_state.
    fold others. rewrite Hsplit. now rewrite broadcast_stops. }
  split; [| split; [| split]].
  - intros Hr. rewrite Hfail, Hnone. unfold try_except.
    rewrite (Hall Hr). now split.
  - intros pre c post Hsplit Hpre Hc. rewrite Hfail, Hnone.
    unfold try_except. rewrite (Hfirst pre c post Hsplit Hpre Hc).
    split; [reflexivity |].
    rewrite (Hdead pre c post _ Hsplit Hpre Hc).
    now rewrite <- app_assoc.
  - rewrite Hfail.
    destruct (reachable link_up (Dict.values others)) eqn:Er.
    + rewrite (Hall eq_refl). apply contains_del.
    + destruct (unreachable_split (Dict.values others) Er)
        as [pre [c [post [Hsplit [Hpre Hc]]]]].
      rewrite (Hfirst pre c post Hsplit Hpre Hc). apply contains_del.
  - rewrite Hnone. unfold try_except.
    destruct (reachable link_up (Dict.values others)) eqn:Er.
    + rewrite (Hall eq_refl). apply contains_del.
    + destruct (unreachable_split (Dict.values others) Er)
        as [pre [c [post [Hsplit [Hpre Hc]]]]].
      rewrite (Hfirst pre c post Hsplit Hpre Hc).
      rewrite (Hdead pre c post _ Hsplit Hpre Hc). apply contains_del.
Qed.

End MoreProperties.

(** * Closed instances of the further properties *)

Lemma get_next_id_overflow_keeps_largest_free_witness :
  max_id registry_with_free_slot <= last_id registry_with_free_slot /\
  0 <= last_id registry_with_free_slot /\
  exists v,
    get_next_id registry_with_free_slot
    = (Ok (-2), with_last_id v registry_with_free_slot) /\
    (v = 2 \/ 0 <= v < 2).
Proof.
  split; [cbn; lia |]. split; [cbn; lia |].
  destruct (get_next_id_overflow_keeps_largest_free registry_with_free_slot)
    as [v [Hrun Hv]]; [cbn; lia | cbn; lia |].
  exists v. split; [exact Hrun |].
  destruct Hv as [[Hv _] | [Hv _]]; [left; exact Hv | right; exact Hv].
Defined.

Lemma get_next_id_within_bounds_witness :
  last_id_ok session /\
  exists r v,
    get_next_id session = (Ok r, with_last_id v session) /\
    last_id_ok (with_last_id v session) /\
    (r = -2 \/ 0 <= r <= max_id session /\ v = r).
Proof.
  assert (H : last_id_ok session) by (unfold last_id_ok; cbn; lia).
  split; [exact H |]. exact (get_next_id_within_bounds session H).
Defined.

Lemma get_next_id_counts_up_witness :
  last_id fresh_server = -1 /\
  Z.of_nat 4 <= max_id fresh_server + 1 /\
  allocate 4 fresh_server = [Ok 0; Ok 1; Ok 2; Ok 3].
Proof.
  split; [reflexivity |]. split; [cbn; lia |].
  apply (get_next_id_counts_up 4 fresh_server); [reflexivity | cbn; lia].
Defined.

(** The fifth request finds the allocator at its maximum. *)
Example fifth_request_is_refused :
  allocate 5 fresh_server = [Ok 0; Ok 1; Ok 2; Ok 3; Ok (-2)].
Proof. reflexivity. Qed.

Lemma authenticate_reply_has_four_characters_witness :
  all_up (request stranger) = true /\
  last_id_ok busy_server /\
  max_id busy_server <= 9999 /\
  authenticate all_up stranger "5f4dcc3b" busy_server
  = (Ok (with_client_id 12 stranger),
     with_wire [(request stranger, Raw "0012"%string)]
       (with_last_id 12 busy_server)) /\
  read_decimal "0012" = Some 12 /\
  (forall t, String.length t = 4%nat ->
             read_decimal t = Some 12 ->
             String.prefix "-" t = false ->
             t = "0012"%string).
Proof.
  assert (H : last_id_ok busy_server) by (unfold last_id_ok; cbn; lia).
  assert (Hm : max_id busy_server <= 9999) by (cbn; lia).
  split; [reflexivity |]. split; [exact H |]. split; [exact Hm |].
  destruct (authenticate_reply_has_four_characters all_up stranger
              "5f4dcc3b"%string busy_server eq_refl H Hm)
    as [cid [s1 [Hrun [_ [_ [_ [_ [Hrd [_ Huniq]]]]]]]]].
  assert (Hc : cid = 12).
  { apply (f_equal fst) in Hrun. cbn [fst] in Hrun.
    change (fst (authenticate all_up stranger "5f4dcc3b" busy_server))
      with (@Ok TroopRequestHandler (with_client_id 12 stranger)) in Hrun.
    now injection Hrun. }
  subst cid. split; [reflexivity |]. split; [exact Hrd | exact Huniq].
Defined.

Lemma three_acks_are_acks :
  Forall (fun m => is_MSG_CONNECT_ACK m = true) three_acks.
Proof. repeat constructor. Qed.

Lemma acknowledgements_release_barrier_witness :
  waiting_for_ack pending_session = true /\
  Forall (fun m => is_MSG_CONNECT_ACK m = true) three_acks /\
  let s' := snd (handle_packet all_up sample_peer_id handler_of_peer_1
                   three_acks pending_session) in
  fst (handle_packet all_up sample_peer_id handler_of_peer_1 three_acks
         pending_session) = Ok tt /\
  clients s' = clients pending_session /\
  (waiting_for_ack s' = false <->
   three_acks <> [] /\
   forall k, In k (Dict.keys (clients pending_session)) ->
             In k (acknowledged_clients pending_session ++ authors three_acks)) /\
  (waiting_for_ack s' = true ->
   msg_queue s' = msg_queue pending_session /\
   acknowledged_clients s'
   = acknowledged_clients pending_session ++ authors three_acks) /\
  (waiting_for_ack s' = false ->
   acknowledged_clients s' = [] /\
   exists p m q,
     three_acks = p ++ m :: q /\
     (p = [] \/
      ~ (forall k, In k (Dict.keys (clients pending_session)) ->
                   In k (acknowledged_clients pending_session ++ authors p))) /\
     (forall k, In k (Dict.keys (clients pending_session)) ->
                In k (acknowledged_clients pending_session
                      ++ authors p ++ [src_id m])) /\
     msg_queue s' = msg_queue pending_session ++ q).
Proof.
  split; [reflexivity |]. split; [exact three_acks_are_acks |].
  exact (acknowledgements_release_barrier all_up sample_peer_id
           handler_of_peer_1 three_acks pending_session eq_refl
           three_acks_are_acks).
Defined.

(** The barrier falls at the acknowledgement of peer 2; the one of peer 0
    that follows is queued. *)
Example late_acknowledgement_is_queued :
  let s' := snd (handle_packet all_up sample_peer_id handler_of_peer_1
                   three_acks pending_session) in
  waiting_for_ack s' = false /\
  msg_queue s' = [Message 0 None CONNECT_ACK].
Proof. split; reflexivity. Qed.

Lemma session_registry_ok : registry_ok (clients session).
Proof.
  split.
  - cbn. repeat constructor; cbn; intuition discriminate.
  - repeat constructor.
Qed.

Lemma respond_evicts_single_dead_peer_witness :
  registry_ok (clients session) /\
  Dict.get (id (peer 0 0%nat)) (clients session) = Some (peer 0 0%nat) /\
  down [0%nat] (source (peer 0 0%nat)) = false /\
  should_send (peer 0 0%nat) server_notice = true /\
  reachable (down [0%nat])
    (Dict.values (Dict.del (id (peer 0 0%nat)) (clients session))) = true /\
  exists pre post,
    Dict.values (clients session) = pre ++ peer 0 0%nat :: post /\
    Dict.values (Dict.del (id (peer 0 0%nat)) (clients session))
    = pre ++ post /\
    respond (down [0%nat]) server_notice session
    = (Ok tt,
       with_wire
         (wire session
          ++ deliveries server_notice
               (filter (fun x => should_send x server_notice) pre)
          ++ deliveries (MSG_REMOVE (id (peer 0 0%nat))) (pre ++ post)
          ++ deliveries server_notice
               (filter (fun x => should_send x server_notice) post))
         (with_clients (Dict.del (id (peer 0 0%nat)) (clients session))
            session)).
Proof.
  split; [exact session_registry_ok |].
  do 4 (split; [reflexivity |]).
  exact (respond_evicts_single_dead_peer (down [0%nat]) server_notice
           (peer 0 0%nat) session session_registry_ok
           eq_refl eq_refl eq_refl eq_refl).
Defined.

Lemma dispatch_accepted_edit_witness :
  let op' := [OpInt 2; OpStr (list_ascii_of_string "!")] in
  let s1 := with_backend (backend session ++ [op'])
              (with_document (list_ascii_of_string "hi!") session) in
  msg_queue session_with_edit = edit :: [] /\
  body edit = OPERATION 1 op' /\
  sample_peer_char (src_id edit) = Some "b"%char /\
  texts_aligned session_with_edit /\
  receive_operation no_transform (src_id edit) 1 op'
    (with_msg_queue [] session_with_edit) = (Ok op', s1) /\
  Dict.get (src_id edit) (clients session_with_edit) = Some (peer 1 1%nat) /\
  reachable all_up (Dict.values (clients session_with_edit)) = true /\
  exists d tags,
    apply_ops op' (document session_with_edit) = Some d /\
    apply_ops (annotation_op "b"%char op') (peer_tag_doc session_with_edit)
    = Some tags /\
    fst (update_send_step all_up sample_peer_char sample_operation_index
           no_transform session_with_edit) = Ok tt.
Proof.
  cbn zeta. do 7 (split; [reflexivity |]).
  destruct (dispatch_accepted_edit all_up sample_peer_char
              sample_operation_index no_transform session_with_edit
              (with_backend
                 (backend session ++ [[OpInt 2; OpStr (list_ascii_of_string "!")]])
                 (with_document (list_ascii_of_string "hi!") session))
              edit [] "b"%char 1
              [OpInt 2; OpStr (list_ascii_of_string "!")]
              [OpInt 2; OpStr (list_ascii_of_string "!")]
              (peer 1 1%nat)
              eq_refl eq_refl eq_refl eq_refl eq_refl eq_refl eq_refl)
    as [d [tags [Hd [Htags [_ [Hrun _]]]]]].
  exists d, tags. split; [exact Hd |]. split; [exact Htags |].
  now rewrite Hrun.
Defined.

(** On the sample session the edit of peer 1 reaches all three peers, the
    document becomes ["hi!"], the annotation ["aab"], and the cursor of
    peer 1 moves to 3. *)
Example dispatch_on_session :
  let s' := snd (update_send_step all_up sample_peer_char
                   sample_operation_index no_transform session_with_edit) in
  document s' = list_ascii_of_string "hi!" /\
  peer_tag_doc s' = list_ascii_of_string "aab" /\
  Dict.get 1 (clients s') = Some (set_index 3 (peer 1 1%nat)) /\
  wire s' = deliveries edit [peer 0 0%nat; set_index 3 (peer 1 1%nat);
                             peer 2 2%nat].
Proof. repeat split; reflexivity. Qed.

Lemma dispatch_edit_of_unregistered_author_witness :
  let op' := [OpInt 2; OpStr (list_ascii_of_string "!")] in
  msg_queue session_without_author = edit :: [] /\
  body edit = OPERATION 1 op' /\
  sample_peer_char (src_id edit) = Some "b"%char /\
  texts_aligned session_without_author /\
  Dict.get (src_id edit) (clients session_without_author) = None /\
  let out := update_send_step all_up sample_peer_char sample_operation_index
               no_transform session_without_author in
  fst out = Raise KeyError /\ wire (snd out) = wire session_without_author.
Proof.
  cbn zeta. do 5 (split; [reflexivity |]).
  destruct (dispatch_edit_of_unregistered_author all_up sample_peer_char
              sample_operation_index no_transform session_without_author
              (with_backend
                 (backend session ++ [[OpInt 2; OpStr (list_ascii_of_string "!")]])
                 (with_document (list_ascii_of_string "hi!")
                    (with_msg_queue [] session_without_author)))
              edit [] "b"%char 1
              [OpInt 2; OpStr (list_ascii_of_string "!")]
              [OpInt 2; OpStr (list_ascii_of_string "!")]
              eq_refl eq_refl eq_refl eq_refl eq_refl eq_refl)
    as [d [tags [_ [_ [Hrun Hwire]]]]].
  split; [now rewrite Hrun | exact Hwire].
Defined.

Lemma relay_of_ordinary_message_witness :
  waiting_for_ack session = false /\
  msg_queue session = [] /\
  is_MSG_CONNECT quiet_notice = false /\
  is_MSG_OPERATION quiet_notice = false /\
  reachable all_up (Dict.values (clients session)) = true /\
  handle_msg all_up sample_peer_id handler_of_peer_1 quiet_notice session
  = (Ok tt, with_msg_queue [quiet_notice] session) /\
  update_send_step all_up sample_peer_char sample_operation_index
    no_transform (with_msg_queue [quiet_notice] session)
  = (Ok tt,
     with_wire [(0%nat, Framed quiet_notice); (2%nat, Framed quiet_notice)]
       session).
Proof.
  do 5 (split; [reflexivity |]).
  exact (relay_of_ordinary_message all_up sample_peer_char sample_peer_id
           sample_operation_index no_transform handler_of_peer_1
           quiet_notice session eq_refl eq_refl eq_refl eq_refl eq_refl).
Defined.

Lemma admission_registers_newcomer_witness :
  is_MSG_CONNECT connect_request = true /\
  address_registered (client_address newcomer) session = false /\
  all_up (request newcomer) = true /\
  reachable all_up (Dict.values (clients session)) = true /\
  exists new_client s1,
    handle_connect all_up newcomer connect_request session
    = (Ok (Some new_client), s1) /\
    get_client (client_id newcomer) s1 = (Ok new_client, s1) /\
    get_client_from_addr (client_address newcomer) s1
    = (Ok (Some new_client), s1) /\
    handle_connect all_up newcomer connect_request s1 = (Ok None, s1).
Proof.
  do 4 (split; [reflexivity |]).
  destruct (admission_registers_newcomer all_up newcomer connect_request
              session eq_refl eq_refl eq_refl eq_refl)
    as [new_client [s1 [Hrun [_ [_ [_ [_ [_ [_ [Hget [Hfind [_ Hagain]]]]]]]]]]]].
  exists new_client, s1. split; [exact Hrun |]. split; [exact Hget |].
  split; [exact Hfind |]. now apply Hagain.
Defined.

Lemma fresh_registry_ok : registry_ok (clients fresh_server).
Proof. split; constructor. Qed.

Lemma registry_stays_well_formed_witness :
  registry_ok (clients fresh_server) /\
  registry_ok
    (clients (run_events all_up sample_peer_char sample_peer_id
                sample_operation_index no_transform
                (firstn 5 sample_run) fresh_server)).
Proof.
  split; [exact fresh_registry_ok |].
  exact (registry_stays_well_formed all_up sample_peer_char sample_peer_id
           sample_operation_index no_transform (firstn 5 sample_run)
           fresh_server fresh_registry_ok).
Defined.

Lemma sample_alphabet_valid (i : Z) (c : ascii) :
  sample_peer_char i = Some c ->
  valid_tag sample_peer_char sample_peer_id c = true.
Proof.
  unfold sample_peer_char. destruct (i <? 0); [discriminate |].
  destruct (Z.to_nat i) as [| [| [| [| n]]]]; cbn; intros H;
    try (injection H as <-; reflexivity).
  destruct n; discriminate.
Qed.

Lemma annotation_stays_valid_witness :
  tags_valid sample_peer_char sample_peer_id fresh_server /\
  let s' := run_events all_up sample_peer_char sample_peer_id
              sample_operation_index no_transform sample_run fresh_server in
  tags_valid sample_peer_char sample_peer_id s' /\
  exists data, get_client_ranges sample_peer_id s' = (Ok data, s').
Proof.
  split; [reflexivity |].
  exact (annotation_stays_valid all_up sample_peer_char sample_peer_id
           sample_operation_index no_transform sample_run fresh_server
           sample_alphabet_valid eq_refl).
Defined.

Lemma annotation_stays_aligned_witness :
  forallb (handles_tagged sample_peer_char) sample_run = true /\
  forallb (tagged sample_peer_char) (msg_queue fresh_server) = true /\
  texts_aligned fresh_server /\
  let s' := run_events all_up sample_peer_char sample_peer_id
              sample_operation_index no_transform sample_run fresh_server in
  texts_aligned s' /\
  forallb (tagged sample_peer_char) (msg_queue s') = true.
Proof.
  do 3 (split; [reflexivity |]).
  exact (annotation_stays_aligned all_up sample_peer_char sample_peer_id
           sample_operation_index no_transform sample_run fresh_server
           eq_refl eq_refl eq_refl).
Defined.

(** The sample run leaves the document ["hi"] annotated ["aa"], and the
    registry empty again. *)
Example sample_run_result :
  let s' := run_events all_up sample_peer_char sample_peer_id
              sample_operation_index no_transform sample_run fresh_server in
  document s' = list_ascii_of_string "hi" /\
  peer_tag_doc s' = list_ascii_of_string "aa" /\
  clients s' = [] /\ waiting_for_ack s' = false /\ msg_queue s' = [].
Proof. repeat split; reflexivity. Qed.

Lemma packet_is_queued_in_order_witness :
  waiting_for_ack session = false /\
  Forall (fun m => is_MSG_CONNECT m = false) [notice; quiet_notice] /\
  handle_packet all_up sample_peer_id handler_of_peer_1
    [notice; quiet_notice] session
  = (Ok tt, with_msg_queue [notice; quiet_notice] session).
Proof.
  assert (H : Forall (fun m => is_MSG_CONNECT m = false)
                [notice; quiet_notice]) by (repeat constructor).
  split; [reflexivity |]. split; [exact H |].
  exact (packet_is_queued_in_order all_up sample_peer_id handler_of_peer_1
           [notice; quiet_notice] session eq_refl H).
Defined.

Lemma update_send_keeps_queue_order_witness :
  let s := with_msg_queue [notice; quiet_notice] session in
  running s = true /\
  Forall (fun m => is_MSG_OPERATION m = false) (msg_queue s) /\
  reachable all_up (Dict.values (clients s)) = true /\
  update_send all_up sample_peer_char sample_operation_index no_transform 2 s
  = (Ok tt,
     with_wire
       [(0%nat, Framed notice); (1%nat, Framed notice); (2%nat, Framed notice);
        (0%nat, Framed quiet_notice); (2%nat, Framed quiet_notice)]
       session).
Proof.
  assert (H : Forall (fun m => is_MSG_OPERATION m = false)
                [notice; quiet_notice]) by (repeat constructor).
  cbn zeta. split; [reflexivity |]. split; [exact H |].
  split; [reflexivity |].
  exact (update_send_keeps_queue_order all_up sample_peer_char
           sample_operation_index no_transform
           (with_msg_queue [notice; quiet_notice] session) eq_refl H eq_refl).
Defined.

Lemma lost_connection_ends_the_loop_witness :
  running session = true /\
  (handle_loop all_up sample_peer_id handler_of_peer_1
     [ReadFailed; Received [notice]] session
   = (Ok tt,
      with_wire (deliveries (MSG_REMOVE 1) [peer 0 0%nat; peer 2 2%nat])
        (with_clients (Dict.del 1 (clients session)) session)) /\
   handle_loop all_up sample_peer_id handler_of_peer_1
     [ReceivedNone; Received [notice]] session
   = (Ok tt,
      with_wire (deliveries (MSG_REMOVE 1) [peer 0 0%nat; peer 2 2%nat])
        (with_clients (Dict.del 1 (clients session)) session))) /\
  (handle_loop (down [2%nat]) sample_peer_id handler_of_peer_1
     [ReadFailed; Received [notice]] session
   = (Raise (DeadClientError (hostname (peer 2 2%nat))),
      with_wire (deliveries (MSG_REMOVE 1) [peer 0 0%nat])
        (with_clients (Dict.del 1 (clients session)) session)) /\
   handle_loop (down [2%nat]) sample_peer_id handler_of_peer_1
     [ReceivedNone; Received [notice]] session
   = (Raise (DeadClientError (hostname (peer 2 2%nat))),
      with_wire (deliveries (MSG_REMOVE 1) [peer 0 0%nat; peer 0 0%nat])
        (with_clients (Dict.del 1 (clients session)) session))).
Proof.
  split; [reflexivity |]. split.
  - exact (proj1 (lost_connection_ends_the_loop all_up sample_peer_id
                    handler_of_peer_1 [Received [notice]] session eq_refl)
             eq_refl).
  - exact (proj1 (proj2 (lost_connection_ends_the_loop (down [2%nat])
                           sample_peer_id handler_of_peer_1
                           [Received [notice]] session eq_refl))
             [peer 0 0%nat] (peer 2 2%nat) [] eq_refl eq_refl eq_refl).
Defined.
